(** * Radyo: catalog reconciliation, mood planner and globe overlay

    A shallow embedding of the TypeScript sources: the interfaces
    ([RadioStation], [StationFilter], [AIMoodResponse]),
    [services/radioService.ts], [services/geminiService.ts], [App.tsx] and
    [components/Globe3D.tsx], and the properties of the specification
    established (or refuted) on it.

    Conventions of the embedding:
    - a JavaScript [number] is an IEEE-754 binary64, i.e. Rocq's primitive
      [float]; [number | null] is [option float];
    - a JavaScript string is a [string], the sequence of bytes of its
      WTF-8 encoding (UTF-8, with a lone surrogate written as the three
      bytes [ED A0..BF xx]); an optional field [f?: string] is
      [option string];
    - truthiness ([if (x)], [a && b], [a || b]) is written out per type;
    - a JavaScript [Map] is an association list in insertion order;
    - [async] functions are sequentialised at their [await]s; exceptions,
      the network, the inference service, the audio element and the React
      state live in an explicit world threaded by a small monad. *)

From Stdlib Require Import List String Ascii Bool ZArith PrimFloat.
From Stdlib Require Import Reals Lra.
Import ListNotations.

Set Warnings "-inexact-float".

Local Open Scope list_scope.
Local Open Scope string_scope.

(* ================================================================== *)
(** * JavaScript primitives used by the sources *)
(* ================================================================== *)

Module JS.

(** [if (x)] for a number: [+0], [-0] and [NaN] are falsy. *)
Definition truthy_number (x : float) : bool :=
  negb (PrimFloat.is_zero x || PrimFloat.is_nan x).

(** [if (x)] for [number | null]. *)
Definition truthy_nullable (x : option float) : bool :=
  match x with
  | Some v => truthy_number v
  | None => false
  end.

(** [if (s)] for a string: only the empty string is falsy. *)
Definition truthy_string (s : string) : bool :=
  negb (String.eqb s "").

(** [if (s)] for [string | undefined]. *)
Definition truthy_opt_string (s : option string) : bool :=
  match s with
  | Some v => truthy_string v
  | None => false
  end.

(** An array length as a number (exact below 2^53). *)
Fixpoint number_of_nat (n : nat) : float :=
  match n with
  | O => 0%float
  | S k => (number_of_nat k + 1)%float
  end.

(** [c.toLowerCase()] on one ASCII character. *)
Definition lower_ascii (c : ascii) : ascii :=
  let n := nat_of_ascii c in
  if (65 <=? n)%nat && (n <=? 90)%nat then ascii_of_nat (n + 32) else c.

(** [s.toLowerCase()] (ASCII letters; other bytes are kept). *)
Fixpoint toLowerCase (s : string) : string :=
  match s with
  | EmptyString => EmptyString
  | String c s' => String (lower_ascii c) (toLowerCase s')
  end.

(** [s.includes(sub)]: [sub] occurs in [s] as a contiguous substring. *)
Fixpoint includes (s sub : string) : bool :=
  String.prefix sub s
  || match s with
     | EmptyString => false
     | String _ s' => includes s' sub
     end.

(** ** [Map<string, V>], in insertion order *)

Definition JsMap (V : Type) : Type := list (string * V).

Definition map_has {V} (m : JsMap V) (k : string) : bool :=
  existsb (fun kv => String.eqb (fst kv) k) m.

(** [m.set(k, v)]: an existing key keeps its position and takes the new
    value; a new key is appended. *)
Fixpoint map_set {V} (m : JsMap V) (k : string) (v : V) : JsMap V :=
  match m with
  | [] => [(k, v)]
  | (k', v') :: m' =>
      if String.eqb k' k then (k', v) :: m' else (k', v') :: map_set m' k v
  end.

(** [Array.from(m.values())]. *)
Definition map_values {V} (m : JsMap V) : list V := map snd m.

(** ** [Array.prototype.sort(compareFn)]

    ECMAScript leaves the algorithm open but requires the sort to be
    stable; it is embedded as the stable insertion sort: an element is
    placed before the first element of the sorted tail that it does not
    compare greater than. *)
Fixpoint sort_insert {A} (cmp : A -> A -> Z) (x : A) (l : list A) : list A :=
  match l with
  | [] => [x]
  | y :: l' =>
      if (cmp x y <=? 0)%Z then x :: y :: l' else y :: sort_insert cmp x l'
  end.

Fixpoint array_sort {A} (cmp : A -> A -> Z) (l : list A) : list A :=
  match l with
  | [] => []
  | x :: l' => sort_insert cmp x (array_sort cmp l')
  end.

(** [s.isWellFormed()]: the string holds no lone surrogate. *)
Fixpoint isWellFormed (s : string) : bool :=
  match s with
  | EmptyString => true
  | String c s' =>
      match s' with
      | String d _ =>
          if (nat_of_ascii c =? 237)%nat
             && (160 <=? nat_of_ascii d)%nat && (nat_of_ascii d <=? 191)%nat
          then false
          else isWellFormed s'
      | EmptyString => isWellFormed s'
      end
  end.

(** [s.split(sep)[0]] for a one-character separator: the characters
    before the first separator, the whole string when there is none. *)
Fixpoint split_head (sep : ascii) (s : string) : string :=
  match s with
  | EmptyString => EmptyString
  | String c s' =>
      if Ascii.eqb c sep then EmptyString else String c (split_head sep s')
  end.

End JS.

(* ================================================================== *)
(** * The interfaces of the station catalog *)
(* ================================================================== *)

Record RadioStation : Type := mkStation {
  stationuuid : string;
  name : string;
  url : string;
  url_resolved : string;
  homepage : string;
  favicon : string;
  tags : string;
  country : string;
  countrycode : string;
  state : string;
  language : string;
  votes : float;
  codec : string;
  bitrate : float;
  geo_lat : option float;
  geo_long : option float
}.

(** [StationFilter]: every field is optional. *)
Record StationFilter : Type := mkFilter {
  f_country : option string;
  f_tag : option string;
  f_name : option string;
  f_limit : option float
}.

(** [AIMoodResponse]: [country] and [tag] are optional. *)
Record AIMoodResponse : Type := mkMood {
  m_country : option string;
  m_tag : option string;
  m_explanation : string
}.

(* ================================================================== *)
(** * [App.tsx]: the pure part of the initial load *)
(* ================================================================== *)

(** The test [s.geo_lat && s.geo_long] shared by [init], [handleSearch]
    and the primary branch of [handleAIMood]. *)
Definition hasGeo (s : RadioStation) : bool :=
  JS.truthy_nullable (geo_lat s) && JS.truthy_nullable (geo_long s).

(** The test [s.geo_lat] of the fallback branch of [handleAIMood]. *)
Definition hasLat (s : RadioStation) : bool :=
  JS.truthy_nullable (geo_lat s).

(** Both coordinates are present (not [null]), whatever their value. *)
Definition coordsPresent (s : RadioStation) : Prop :=
  geo_lat s <> None /\ geo_long s <> None.

(** The callback of [allStations.forEach] in [init]. *)
Definition dedupStep (uniqueStations : JS.JsMap RadioStation) (s : RadioStation)
  : JS.JsMap RadioStation :=
  if hasGeo s && negb (JS.map_has uniqueStations (stationuuid s))
  then JS.map_set uniqueStations (stationuuid s) s
  else uniqueStations.

(** [uniqueStations] after the [forEach]. *)
Definition dedupStations (allStations : list RadioStation) : JS.JsMap RadioStation :=
  fold_left dedupStep allStations [].

(** [isTurkish] of the sort callback. The fields are strings by the
    interface, so the optional chaining [?.] always takes the call. *)
Definition isTurkish (s : RadioStation) : bool :=
  String.eqb (countrycode s) "TR"
  || String.eqb (JS.toLowerCase (country s)) "turkey"
  || JS.includes (JS.toLowerCase (tags s)) "turkey"
  || JS.includes (JS.toLowerCase (tags s)) "turkish".

(** The comparison function handed to [finalStations.sort]. *)
Definition compareStations (a b : RadioStation) : Z :=
  let aIsTR := isTurkish a in
  let bIsTR := isTurkish b in
  if aIsTR && negb bIsTR then (-1)%Z
  else if negb aIsTR && bIsTR then 1%Z
  else 0%Z.

(** Lines 36-61 of [init]: from [allStations] to the sorted
    [finalStations]. *)
Definition finalStationsOf (allStations : list RadioStation) : list RadioStation :=
  let uniqueStations := dedupStations allStations in
  let finalStations := JS.map_values uniqueStations in
  JS.array_sort compareStations finalStations.

(** Lines 33-61 of [init]: the three result sets are merged with the
    Turkish ones first. *)
Definition reconcileInit (turkishData turkishTagData globalData : list RadioStation)
  : list RadioStation :=
  let allStations := (turkishData ++ turkishTagData ++ globalData)%list in
  finalStationsOf allStations.

(** The specification's [reconcile]: the same pipeline over any sequence
    of result sets, concatenated in the order given. *)
Definition reconcile (resultSets : list (list RadioStation)) : list RadioStation :=
  finalStationsOf (List.concat resultSets).

(** The specification's [filterResults]: [results.filter(s => s.geo_lat &&
    s.geo_long)] of [handleSearch] and [handleAIMood]. *)
Definition filterResults (results : list RadioStation) : list RadioStation :=
  filter hasGeo results.

(** A station with the given identifier, name, country code and
    coordinates (every other field empty), for examples. *)
Definition station (id nm cc : string) (lat lon : option float) : RadioStation :=
  mkStation id nm "" "" "" "" "" "" cc "" "" 0%float "" 0%float lat lon.


(* ================================================================== *)
(** * The world: exceptions, console, network, inference, audio, state *)
(* ================================================================== *)

(** A thrown JavaScript value. *)
Inductive JsError : Type := mkError (message : string).

(** How a statement or an awaited promise completes. *)
Inductive Completion (A : Type) : Type :=
| Normal (a : A)
| Throw (e : JsError).
Arguments Normal {A} a.
Arguments Throw {A} e.

(** The [config] argument of [ai.models.generateContent]. *)
Inductive GenConfig : Type :=
| TextConfig (temperature maxOutputTokens : float)
| JsonConfig (responseMimeType : string)
             (properties : list (string * bool)) (* name, nullable *)
             (required : list string).

Record GenRequest : Type := mkGenRequest {
  g_model : string;
  g_contents : string;
  g_config : GenConfig
}.

(** What the sources read of a [fetch] response: [ok] and [json()]. A
    body that parses is read at the type the sources give it, an array of
    station records. *)
Record Response : Type := mkResponse {
  r_ok : bool;
  r_json : Completion (list RadioStation)
}.

(** What the sources read of a [generateContent] response: [text]. *)
Record GenResponse : Type := mkGenResponse {
  g_text : option string
}.

Inductive Event : Type :=
| EvFetch (url : string)
| EvGenerateContent (req : GenRequest)
| EvConsoleError (msg : string) (e : JsError)
| EvConsoleWarn (msg : string) (e : JsError)
| EvAudioSrc (src : string)
| EvAudioPlay
| EvAudioPause.

(** The [useState] cells of [App]. *)
Record AppState : Type := mkApp {
  stations : list RadioStation;
  currentStation : option RadioStation;
  isPlaying : bool;
  volume : float;
  aiInsight : string;
  loading : bool
}.

Record World : Type := mkWorld {
  app : AppState;
  log : list Event
}.

(** What lies outside the sources. The network and the inference service
    answer as a function of the whole history, so two identical requests
    may be answered differently. [fetch] and [generateContent] may reject.
    [JSON_parse] may throw; the value of a text it accepts is [null]
    ([None]) or is read through the fields that the cast
    [as AIMoodResponse] names. [play_rejects] tells whether the promise of
    [play()] rejects. [encodeURIComponent] gives the escaped text of a
    well-formed string (on any other the library throws, see
    [encodeURIComponent_js]); [numberToString] is the conversion of a
    template literal. *)
Record Env : Type := mkEnv {
  fetch : list Event -> string -> Completion Response;
  generateContent : list Event -> GenRequest -> Completion GenResponse;
  play_rejects : list Event -> option JsError;
  JSON_parse : string -> Completion (option AIMoodResponse);
  encodeURIComponent : string -> string;
  numberToString : float -> string
}.

Definition M (A : Type) : Type := World -> Completion A * World.

Definition ret {A} (a : A) : M A := fun w => (Normal a, w).

Definition throw {A} (e : JsError) : M A := fun w => (Throw e, w).

Definition bind {A B} (c : M A) (k : A -> M B) : M B :=
  fun w =>
    match c w with
    | (Normal a, w') => k a w'
    | (Throw e, w') => (Throw e, w')
    end.

(** [try { body } catch (error) { handler }]. *)
Definition try_catch {A} (body : M A) (handler : JsError -> M A) : M A :=
  fun w =>
    match body w with
    | (Normal a, w') => (Normal a, w')
    | (Throw e, w') => handler e w'
    end.

(** [try { body } finally { fin }], for a [fin] that completes normally. *)
Definition try_finally {A} (body : M A) (fin : M unit) : M A :=
  fun w =>
    match body w with
    | (r, w') =>
        match fin w' with
        | (Normal _, w'') => (r, w'')
        | (Throw e, w'') => (Throw e, w'')
        end
    end.

Declare Scope js_scope.
Delimit Scope js_scope with js.
Notation "x <- c1 ;; c2" := (bind c1 (fun x => c2))
  (at level 61, c1 at next level, right associativity) : js_scope.
Notation "c1 ;; c2" := (bind c1 (fun _ => c2))
  (at level 61, right associativity) : js_scope.
Local Open Scope js_scope.

(** Awaiting a promise that settles as [c]. *)
Definition await {A} (c : Completion A) : M A := fun w => (c, w).

Definition emit (ev : Event) : M unit :=
  fun w => (Normal tt, mkWorld (app w) (log w ++ [ev])%list).

Definition history : M (list Event) := fun w => (Normal (log w), w).

Definition getApp : M AppState := fun w => (Normal (app w), w).

Definition setApp (f : AppState -> AppState) : M unit :=
  fun w => (Normal tt, mkWorld (f (app w)) (log w)).

Definition setStations (v : list RadioStation) : M unit :=
  setApp (fun a => mkApp v (currentStation a) (isPlaying a) (volume a) (aiInsight a) (loading a)).

Definition setCurrentStation (v : option RadioStation) : M unit :=
  setApp (fun a => mkApp (stations a) v (isPlaying a) (volume a) (aiInsight a) (loading a)).

Definition setAiInsight (v : string) : M unit :=
  setApp (fun a => mkApp (stations a) (currentStation a) (isPlaying a) (volume a) v (loading a)).

Definition setLoading (v : bool) : M unit :=
  setApp (fun a => mkApp (stations a) (currentStation a) (isPlaying a) (volume a) (aiInsight a) v).

Definition console_error (msg : string) (e : JsError) : M unit :=
  emit (EvConsoleError msg e).

Definition console_warn (msg : string) (e : JsError) : M unit :=
  emit (EvConsoleWarn msg e).

(** The double quote and the line feed of the template literals. *)
Definition dquote : string := String (ascii_of_nat 34) EmptyString.
Definition nl : string := String (ascii_of_nat 10) EmptyString.

Section Program.

Variable env : Env.

(** [await fetch(url)]. *)
Definition do_fetch (url : string) : M Response :=
  h <- history ;;
  emit (EvFetch url) ;;
  await (fetch env h url).

(** [await ai.models.generateContent(req)]. *)
Definition do_generateContent (req : GenRequest) : M GenResponse :=
  h <- history ;;
  emit (EvGenerateContent req) ;;
  await (generateContent env h req).

(* ---------------------------------------------------------------- *)
(** ** [services/radioService.ts] *)
(* ---------------------------------------------------------------- *)

Definition BASE_URL : string := "https://de1.api.radio-browser.info/json/stations".

Definition topUrl (limit : float) : string :=
  BASE_URL ++ "/search?limit=" ++ numberToString env limit
    ++ "&order=clickcount&reverse=true&hidebroken=true&has_geo_info=true".

Definition fetchTopStations (limit : float) : M (list RadioStation) :=
  try_catch
    (response <- do_fetch (topUrl limit) ;;
     if negb (r_ok response) then throw (mkError "Failed to fetch stations")
     else await (r_json response))
    (fun error =>
       console_error "Error fetching top stations:" error ;;
       ret []).

(** The [url] that [searchStations] builds from its filter when no call
    of [encodeURIComponent] throws. *)
Definition searchUrl (filter : StationFilter) : string :=
  let limit :=
    match f_limit filter with
    | Some l => if JS.truthy_number l then l else 20%float
    | None => 20%float
    end in
  let url := BASE_URL ++ "/search?hidebroken=true&limit=" ++ numberToString env limit
               ++ "&order=clickcount&reverse=true&has_geo_info=true" in
  let url :=
    match f_country filter with
    | Some c => if JS.truthy_string c
                then url ++ "&country=" ++ encodeURIComponent env c else url
    | None => url
    end in
  let url :=
    match f_tag filter with
    | Some t => if JS.truthy_string t
                then url ++ "&tag=" ++ encodeURIComponent env t else url
    | None => url
    end in
  let url :=
    match f_name filter with
    | Some n => if JS.truthy_string n
                then url ++ "&name=" ++ encodeURIComponent env n else url
    | None => url
    end in
  url.

(** [encodeURIComponent(s)]: a [URIError] on a lone surrogate. *)
Definition encodeURIComponent_js (s : string) : Completion string :=
  if JS.isWellFormed s then Normal (encodeURIComponent env s)
  else Throw (mkError "URI malformed").

(** The statements of [searchStations] that build [url], in their order;
    each call of [encodeURIComponent] may throw. *)
Definition buildSearchUrl (filter : StationFilter) : Completion string :=
  let limit :=
    match f_limit filter with
    | Some l => if JS.truthy_number l then l else 20%float
    | None => 20%float
    end in
  let url := BASE_URL ++ "/search?hidebroken=true&limit=" ++ numberToString env limit
               ++ "&order=clickcount&reverse=true&has_geo_info=true" in
  let append (key : string) (field : option string) (url : string)
      : Completion string :=
    match field with
    | Some v =>
        if JS.truthy_string v
        then match encodeURIComponent_js v with
             | Normal escaped => Normal (url ++ key ++ escaped)
             | Throw e => Throw e
             end
        else Normal url
    | None => Normal url
    end in
  match append "&country=" (f_country filter) url with
  | Throw e => Throw e
  | Normal url =>
      match append "&tag=" (f_tag filter) url with
      | Throw e => Throw e
      | Normal url => append "&name=" (f_name filter) url
      end
  end.

Definition searchStations (filter : StationFilter) : M (list RadioStation) :=
  try_catch
    (url <- await (buildSearchUrl filter) ;;
     response <- do_fetch url ;;
     if negb (r_ok response) then throw (mkError "Failed to search stations")
     else await (r_json response))
    (fun error =>
       console_error "Error searching stations:" error ;;
       ret []).

(* ---------------------------------------------------------------- *)
(** ** [services/geminiService.ts] *)
(* ---------------------------------------------------------------- *)

Definition insightPrompt (stationName country tags : string) : string :=
  String.concat nl
    [ "";
      "      You are a cool, knowledgeable radio DJ. ";
      "      The user just tuned into " ++ dquote ++ stationName ++ dquote
        ++ " in " ++ country ++ ". ";
      "      Tags: " ++ tags ++ ".";
      "      ";
      "      Give a very short (1 sentence, max 20 words) fun fact or interesting comment about this location's music scene or culture. ";
      "      Keep it punchy and engaging. Do not use quotes.";
      "    " ].

(** The argument of [generateContent] in [getStationInsight]. *)
Definition insightRequest (stationName country tags : string) : GenRequest :=
  let model := "gemini-2.5-flash" in
  let prompt := insightPrompt stationName country tags in
  mkGenRequest model prompt (TextConfig 0.8%float 50%float).

Definition getStationInsight (stationName country tags : string) : M string :=
  try_catch
    (response <- do_generateContent (insightRequest stationName country tags) ;;
     ret (match g_text response with
          | Some t => if JS.truthy_string t then t else "Enjoy the tunes!"
          | None => "Enjoy the tunes!"
          end))
    (fun error =>
       console_error "Gemini Insight Error:" error ;;
       ret "Tuning into global frequencies...").

Definition moodPrompt (userQuery : string) : string :=
  String.concat nl
    [ "";
      "      Analyze this user request for radio music: " ++ dquote ++ userQuery
        ++ dquote ++ ".";
      "      Extract a target country (if mentioned or implied) and a music genre tag.";
      "      Also provide a short 5-word explanation.";
      "      ";
      "      Return JSON format.";
      "    " ].

(** The object returned by the [catch] of [getMoodRecommendation]. *)
Definition fallbackMood : AIMoodResponse :=
  mkMood None (Some "pop") "Couldn't quite catch that vibe. Try 'Jazz from France'.".

(** The argument of [generateContent] in [getMoodRecommendation]. *)
Definition moodRequest (userQuery : string) : GenRequest :=
  let model := "gemini-2.5-flash" in
  let prompt := moodPrompt userQuery in
  mkGenRequest model prompt
    (JsonConfig "application/json"
       [("country", true); ("tag", true); ("explanation", false)]
       ["explanation"]).

Definition getMoodRecommendation (userQuery : string) : M (option AIMoodResponse) :=
  try_catch
    (response <- do_generateContent (moodRequest userQuery) ;;
     if JS.truthy_opt_string (g_text response)
     then await (JSON_parse env (match g_text response with Some t => t | None => "" end))
     else throw (mkError "No text returned"))
    (fun error =>
       console_error "Gemini Mood Error:" error ;;
       ret (Some fallbackMood)).

(* ---------------------------------------------------------------- *)
(** ** [App.tsx] *)
(* ---------------------------------------------------------------- *)

(** [init]. The three requests of [Promise.all] are started in the order
    written; none of them can reject, so they are awaited in turn. *)
Definition init : M unit :=
  setLoading true ;;
  try_finally
    (try_catch
       (globalData <- fetchTopStations 50%float ;;
        turkishData <- searchStations (mkFilter (Some "Turkey") None None (Some 200%float)) ;;
        turkishTagData <- searchStations (mkFilter None (Some "turkish") None (Some 100%float)) ;;
        let finalStations := reconcileInit turkishData turkishTagData globalData in
        setStations finalStations)
       (fun e => console_error "Failed to load initial stations" e))
    (setLoading false).

(** [audioRef.current.play()]: the returned promise may reject; the
    rejection is handed to [on_reject] when there is a [.catch]. *)
Definition audio_play (on_reject : option (JsError -> M unit)) : M unit :=
  h <- history ;;
  emit EvAudioPlay ;;
  match play_rejects env h, on_reject with
  | Some e, Some handler => handler e
  | _, _ => ret tt
  end.

(** [audioRef.current.play()], with the promise it returns: [Some e] when
    it will reject with [e]. *)
Definition audio_play_promise : M (option JsError) :=
  h <- history ;;
  emit EvAudioPlay ;;
  ret (play_rejects env h).

Definition audio_pause : M unit := emit EvAudioPause.

(** [currentStation?.stationuuid === station.stationuuid]. *)
Definition sameStation (cur : option RadioStation) (station : RadioStation) : bool :=
  match cur with
  | Some c => String.eqb (stationuuid c) (stationuuid station)
  | None => false
  end.

Definition handleStationSelect (station : RadioStation) : M unit :=
  a <- getApp ;;
  if sameStation (currentStation a) station then
    (* Toggle play if same station *)
    if isPlaying a then audio_pause else audio_play None
  else
    setCurrentStation (Some station) ;;
    emit (EvAudioSrc (url_resolved station)) ;;
    rejection <- audio_play_promise ;;
    setAiInsight "Tuning in..." ;;
    insight <- getStationInsight (name station) (country station) (tags station) ;;
    setAiInsight insight ;;
    (* the callback of [.catch]: it runs when the promise of [play()]
       rejects, at a time the browser chooses after the request of the
       insight has left; here, after the body *)
    match rejection with
    | Some e => console_warn "Playback error" e
    | None => ret tt
    end.

(** The [`Found ${mapped.length} stations.`] message; [length] is a
    number, printed by the template literal. *)
Definition foundMessage (n : nat) : string :=
  "Found " ++ numberToString env (JS.number_of_nat n) ++ " stations.".

Definition handleSearch (query : string) : M unit :=
  setLoading true ;;
  results <- searchStations (mkFilter None None (Some query) (Some 50%float)) ;;
  let mapped := filterResults results in
  setStations mapped ;;
  setLoading false ;;
  if (List.length mapped =? 0)%nat
  then setAiInsight "No stations found for that search."
  else setAiInsight (foundMessage (List.length mapped)).

(** The [filter] object of [handleAIMood] after its two assignments. *)
Definition primaryFilter (response : AIMoodResponse) : StationFilter :=
  let filter := mkFilter None None None (Some 50%float) in
  let filter :=
    if JS.truthy_opt_string (m_country response)
    then mkFilter (m_country response) (f_tag filter) (f_name filter) (f_limit filter)
    else filter in
  let filter :=
    if JS.truthy_opt_string (m_tag response)
    then mkFilter (f_country filter) (m_tag response) (f_name filter) (f_limit filter)
    else filter in
  filter.

(** The filter of the looser search: [{ tag: response.tag, limit: 50 }]. *)
Definition looseFilter (response : AIMoodResponse) : StationFilter :=
  mkFilter None (m_tag response) None (Some 50%float).

(** The [TypeError] of a property read on [null]. *)
Definition nullPropertyError : JsError :=
  mkError "Cannot read properties of null (reading 'explanation')".

Definition handleAIMood (query : string) : M unit :=
  setLoading true ;;
  setAiInsight "AI is finding your frequency..." ;;
  response <- getMoodRecommendation query ;;
  (* [response.explanation]: reading a property of [null] throws *)
  response <- match response with
              | Some object => ret object
              | None => throw nullPropertyError
              end ;;
  setAiInsight (m_explanation response) ;;
  results <- searchStations (primaryFilter response) ;;
  let mapped := filter hasGeo results in
  (* If strict filter fails, try looser search *)
  (if (List.length mapped =? 0)%nat && JS.truthy_opt_string (m_tag response)
   then looseResults <- searchStations (looseFilter response) ;;
        setStations (filter hasLat looseResults)
   else setStations mapped) ;;
  setLoading false.

(** [getStationsByLocation] of [radioService.ts] ("Fallback
    implementation"); [radius] defaults to 500. *)
Definition getStationsByLocation (lat lng : float) (radius : option float)
  : M (list RadioStation) :=
  let radius := match radius with Some r => r | None => 500%float end in
  try_catch (fetchTopStations 50%float) (fun error => ret []).

(** [handlePlayPause] of [App]. *)
Definition handlePlayPause : M unit :=
  a <- getApp ;;
  match currentStation a with
  | None => ret tt
  | Some _ => if isPlaying a then audio_pause else audio_play None
  end.

End Program.

(* ================================================================== *)
(** * [components/Globe3D.tsx] *)
(* ================================================================== *)

Module Globe3D.

Definition GLOBE_RADIUS : float := 5%float.

(** ** Projection

    [latLonToVector3] is written once, over the arithmetic it uses, and
    read in two ways: in binary64, as the program computes it, and in the
    real numbers, as the exact value its formula denotes. *)

(** The operations and constants [latLonToVector3] and [Vector3.length]
    use. *)
Record Arith (A : Type) : Type := mkArith {
  n90 : A;
  n180 : A;
  Math_PI : A;
  add : A -> A -> A;
  sub : A -> A -> A;
  mul : A -> A -> A;
  div : A -> A -> A;
  neg : A -> A;
  Math_sin : A -> A;
  Math_cos : A -> A;
  Math_sqrt : A -> A
}.
Arguments mkArith {A} _ _ _ _ _ _ _ _ _ _ _.
Arguments n90 {A} _.
Arguments n180 {A} _.
Arguments Math_PI {A} _.
Arguments add {A} _ _ _.
Arguments sub {A} _ _ _.
Arguments mul {A} _ _ _.
Arguments div {A} _ _ _.
Arguments neg {A} _ _.
Arguments Math_sin {A} _ _.
Arguments Math_cos {A} _ _.
Arguments Math_sqrt {A} _ _.

Record Vector3 (A : Type) : Type := mkVector3 { vx : A; vy : A; vz : A }.
Arguments mkVector3 {A} _ _ _.
Arguments vx {A} _.
Arguments vy {A} _.
Arguments vz {A} _.

Definition latLonToVector3 {A} (ar : Arith A) (lat lon radius : A) : Vector3 A :=
  let phi := mul ar (sub ar (n90 ar) lat) (div ar (Math_PI ar) (n180 ar)) in
  let theta := mul ar (add ar lon (n180 ar)) (div ar (Math_PI ar) (n180 ar)) in
  let x := neg ar (mul ar (mul ar radius (Math_sin ar phi)) (Math_cos ar theta)) in
  let z := mul ar (mul ar radius (Math_sin ar phi)) (Math_sin ar theta) in
  let y := mul ar radius (Math_cos ar phi) in
  mkVector3 x y z.

(** [Vector3.length()] of three.js:
    [Math.sqrt(x * x + y * y + z * z)]. *)
Definition vlength {A} (ar : Arith A) (v : Vector3 A) : A :=
  Math_sqrt ar
    (add ar (add ar (mul ar (vx v) (vx v)) (mul ar (vy v) (vy v)))
            (mul ar (vz v) (vz v))).

(** [Math.sin] and [Math.cos] of an engine. ECMAScript leaves their
    precision to the implementation and fixes their values at [+0]. *)
Record MathLib : Type := mkMathLib {
  engine_sin : float -> float;
  engine_cos : float -> float;
  engine_sin_zero : engine_sin 0%float = 0%float;
  engine_cos_zero : engine_cos 0%float = 1%float
}.

(** The arithmetic of the program: binary64, [Math.PI] the double nearest
    to pi, [Math.sqrt] correctly rounded. *)
Definition binary64 (m : MathLib) : Arith float :=
  mkArith 90%float 180%float 3.141592653589793%float
          PrimFloat.add PrimFloat.sub PrimFloat.mul PrimFloat.div PrimFloat.opp
          (engine_sin m) (engine_cos m) PrimFloat.sqrt.

(** The exact arithmetic of the real numbers. *)
Definition exact : Arith R :=
  mkArith 90%R 180%R PI Rplus Rminus Rmult Rdiv Ropp sin cos sqrt.

(** An engine with short polynomials for [Math.sin] and [Math.cos]: it
    meets the two requirements. *)
Definition polyMath : MathLib :=
  mkMathLib (fun x => x - x * x * x / 6)%float
            (fun x => 1 - x * x / 2)%float
            eq_refl eq_refl.

(** ** Per-frame rotation

    [rotation] is the Euler triple of a three.js object; the sources only
    ever touch its [y]. The additions are those of binary64. *)

Record Euler : Type := mkEuler { ex : float; ey : float; ez : float }.

Record Object3D : Type := mkObject3D { rotation : Euler }.

(** The three objects held by refs: [earthRef] and [cloudsRef] of
    [RealisticEarth], and [ref] of [EarthRotator]. A ref is [None]
    while its object is not mounted. *)
Record Scene : Type := mkScene {
  earthRef : option Object3D;
  cloudsRef : option Object3D;
  rotatorRef : option Object3D
}.

(** [o.rotation.y += d]. *)
Definition add_rotation_y (d : float) (o : Object3D) : Object3D :=
  mkObject3D (mkEuler (ex (rotation o)) (ey (rotation o) + d)%float (ez (rotation o))).

(** [if (ref.current) { ref.current.rotation.y += d }]. *)
Definition spin (d : float) (ref : option Object3D) : option Object3D :=
  match ref with
  | Some o => Some (add_rotation_y d o)
  | None => None
  end.

(** The [useFrame] callback of [RealisticEarth]. *)
Definition RealisticEarth_useFrame (sc : Scene) : Scene :=
  let sc := mkScene (spin 0.0005%float (earthRef sc)) (cloudsRef sc) (rotatorRef sc) in
  mkScene (earthRef sc) (spin 0.0007%float (cloudsRef sc)) (rotatorRef sc).

(** The [useFrame] callback of [EarthRotator]. *)
Definition EarthRotator_useFrame (sc : Scene) : Scene :=
  mkScene (earthRef sc) (cloudsRef sc) (spin 0.0005%float (rotatorRef sc)).

(** One rendered frame: every subscribed callback runs once. *)
Definition frame (sc : Scene) : Scene :=
  EarthRotator_useFrame (RealisticEarth_useFrame sc).

(** [n] rendered frames. *)
Fixpoint frames (n : nat) (sc : Scene) : Scene :=
  match n with
  | O => sc
  | S k => frames k (frame sc)
  end.

(** The scene when the [Suspense] boundary commits: the three objects are
    created together, each with the default rotation. *)
Definition unrotated : Object3D := mkObject3D (mkEuler 0%float 0%float 0%float).

Definition mountedScene : Scene :=
  mkScene (Some unrotated) (Some unrotated) (Some unrotated).

(** The rotation under which the children of a ref are drawn. *)
Definition rotationOf (ref : option Object3D) : option Euler :=
  option_map rotation ref.

(** ** Markers *)

(** The guard of [StationMarker]:
    [if (!station.geo_lat || !station.geo_long) return null]. *)
Definition StationMarker_renders (station : RadioStation) : bool :=
  negb (negb (JS.truthy_nullable (geo_lat station))
        || negb (JS.truthy_nullable (geo_long station))).

(** The markers of [Globe3D]: one per station of the catalog, each with
    its [isSelected] prop. *)
Definition stationMarkers (stations : list RadioStation)
           (currentStation : option RadioStation) : list (RadioStation * bool) :=
  map (fun station => (station, sameStation currentStation station)) stations.

End Globe3D.

(* ================================================================== *)
(** * [components/Player.tsx] *)
(* ================================================================== *)

Module Player.

(** The argument of [onVolumeChange] in the mute button:
    [volume === 0 ? 0.5 : 0]. *)
Definition muteToggle (volume : float) : float :=
  if (volume =? 0)%float then 0.5%float else 0%float.

(** The genre label: [station.tags?.split(',')[0] || 'FM']. *)
Definition genreLabel (station : RadioStation) : string :=
  let first := JS.split_head "," (tags station) in
  if JS.truthy_string first then first else "FM".

End Player.

(* ================================================================== *)
(** * Auxiliary definitions of the statements *)
(* ================================================================== *)

(** Membership of a key in a list of keys, as [Map.has] computes it. *)
Definition seenb (seen : list string) (k : string) : bool :=
  existsb (fun k' => String.eqb k' k) seen.

Definition ordinary (s : RadioStation) : bool := negb (isTurkish s).

(** The records the [forEach] adds to a map whose keys are [seen]. *)
Fixpoint firstGeo (seen : list string) (l : list RadioStation) : list RadioStation :=
  match l with
  | [] => []
  | s :: l' =>
      if hasGeo s && negb (seenb seen (stationuuid s))
      then s :: firstGeo (seen ++ [stationuuid s])%list l'
      else firstGeo seen l'
  end.

Definition entries (l : list RadioStation) : JS.JsMap RadioStation :=
  map (fun s => (stationuuid s, s)) l.

(** A station on the equator: both coordinates are present, the latitude
    is the number 0. *)
Definition equatorStation : RadioStation :=
  station "eq-1" "Equator FM" "EC" (Some 0%float) (Some (-78.5)%float).

(** The claim C4 as it is written: identifiers are unique in the output,
    and a record of the output is the first record of the concatenation
    carrying its identifier. *)
Definition first_occurrence_wins (resultSets : list (list RadioStation)) : Prop :=
  NoDup (map stationuuid (reconcile resultSets))
  /\ forall s l1 t l2,
       In s (reconcile resultSets) ->
       List.concat resultSets = (l1 ++ t :: l2)%list ->
       stationuuid t = stationuuid s ->
       (forall u, In u l1 -> stationuuid u <> stationuuid s) ->
       t = s.

Definition fooNoGeo : RadioStation := station "1" "Foo" "" None None.
Definition fooGeo : RadioStation :=
  station "1" "Foo" "" (Some 48.85%float) (Some 2.35%float).
Definition barGeo : RadioStation :=
  station "1" "Bar" "" (Some 41.01%float) (Some 28.97%float).

(** Four stations with coordinates: [p1] is Turkish by its country code,
    [p2] by a tag, [o1] and [o2] are not. *)
Definition p1 : RadioStation :=
  mkStation "p1" "TRT FM" "" "" "" "" "pop" "Turkey" "TR" "" "" 0%float "" 0%float
            (Some 39.93%float) (Some 32.86%float).
Definition o1 : RadioStation :=
  mkStation "o1" "FIP" "" "" "" "" "jazz" "France" "FR" "" "" 0%float "" 0%float
            (Some 48.85%float) (Some 2.35%float).
Definition p2 : RadioStation :=
  mkStation "p2" "Radyo Berlin" "" "" "" "" "news,Turkish" "Germany" "DE" "" ""
            0%float "" 0%float (Some 52.52%float) (Some 13.4%float).
Definition o2 : RadioStation :=
  mkStation "o2" "KEXP" "" "" "" "" "indie" "The United States Of America" "US" ""
            "" 0%float "" 0%float (Some 47.6%float) (Some (-122.33)%float).

(** The URLs fetched in a log, in the order of the requests. *)
Fixpoint queries (l : list Event) : list string :=
  match l with
  | [] => []
  | EvFetch url :: l' => url :: queries l'
  | _ :: l' => queries l'
  end.

(** The console output of a log carries no request. *)
Definition quiet (l : list Event) : Prop := queries l = [].

(** An application state to start from. *)
Definition app0 : AppState :=
  mkApp [] None false 0.5%float "Welcome! Select a station to begin." false.

Definition world0 : World := mkWorld app0 [].

(** The decimal form of the limits the sources pass. *)
Definition showLimit (x : float) : string :=
  if (x =? 20)%float then "20"
  else if (x =? 50)%float then "50"
  else if (x =? 100)%float then "100"
  else if (x =? 200)%float then "200"
  else "0".

(** An environment in which nothing can be reached: every request
    rejects. *)
Definition offlineEnv : Env :=
  mkEnv (fun _ _ => Throw (mkError "Failed to fetch"))
        (fun _ _ => Throw (mkError "Network error"))
        (fun _ => None)
        (fun _ => Throw (mkError "Unexpected token"))
        (fun s => s)
        showLimit.

(** A record with a latitude and no longitude. *)
Definition latOnly : RadioStation :=
  mkStation "lat-1" "Jazz Nowhere" "" "" "" "" "jazz" "" "" "" "" 0%float "" 0%float
            (Some 35.68%float) None.

(** The mood of the specification's scenario. *)
Definition tokyoMood : AIMoodResponse :=
  mkMood (Some "Japan") (Some "jazz") "smoky downtempo vibes".

(** An environment for that scenario: the inference service answers
    [tokyoMood]; the first catalog request is answered by the empty array,
    every later one by an array holding [latOnly]. *)
Definition tokyoEnv : Env :=
  mkEnv (fun h _ =>
           match queries h with
           | [] => Normal (mkResponse true (Normal []))
           | _ => Normal (mkResponse true (Normal [latOnly]))
           end)
        (fun _ _ => Normal (mkGenResponse (Some "{...}")))
        (fun _ => None)
        (fun _ => Normal (Some tokyoMood))
        (fun s => s)
        showLimit.

(** Whether [encodeURIComponent] throws on a field of a filter: the field
    is truthy, so it is escaped, and holds a lone surrogate. *)
Definition fieldMalformed (field : option string) : bool :=
  match field with
  | Some v => JS.truthy_string v && negb (JS.isWellFormed v)
  | None => false
  end.

(** Whether [searchStations] throws while it builds its URL. *)
Definition uriMalformed (filter : StationFilter) : bool :=
  fieldMalformed (f_country filter)
  || fieldMalformed (f_tag filter)
  || fieldMalformed (f_name filter).

(** The request that [searchStations] sends for a filter: none when the
    URL cannot be built. *)
Definition requestOf (env : Env) (filter : StationFilter) : list Event :=
  if uriMalformed filter then [] else [EvFetch (searchUrl env filter)].

(** Console output, as opposed to requests and audio commands. *)
Definition isConsole (ev : Event) : bool :=
  match ev with
  | EvConsoleError _ _ | EvConsoleWarn _ _ => true
  | _ => false
  end.

(** An environment for the scenario of the specification in which the
    primary response holds one record, on the equator, and the looser
    response holds none. *)
Definition equatorEnv : Env :=
  mkEnv (fun h _ =>
           match queries h with
           | [] => Normal (mkResponse true (Normal [equatorStation]))
           | _ => Normal (mkResponse true (Normal []))
           end)
        (fun _ _ => Normal (mkGenResponse (Some "{...}")))
        (fun _ => None)
        (fun _ => Normal (Some tokyoMood))
        (fun s => s)
        showLimit.

(** An environment whose catalog answers every request with the same
    three records, the last one without a longitude. *)
Definition catalogEnv : Env :=
  mkEnv (fun _ _ => Normal (mkResponse true (Normal [p1; o1; latOnly])))
        (fun _ _ => Normal (mkGenResponse (Some "{...}")))
        (fun _ => None)
        (fun _ => Normal (Some (mkMood None (Some "jazz") "late night jazz")))
        (fun s => s)
        showLimit.

(** An environment in which the inference service answers the JSON text
    [null]. *)
Definition nullEnv : Env :=
  mkEnv (fun _ _ => Normal (mkResponse true (Normal [])))
        (fun _ _ => Normal (mkGenResponse (Some "null")))
        (fun _ => None)
        (fun t => if String.eqb t "null" then Normal None
                  else Throw (mkError "Unexpected token"))
        (fun s => s)
        showLimit.

(** C9 for the mood operation, as it is written: in every run the mood
    operation hands a filter to its caller, and the caller completes. *)
Definition every_mood_failure_recovered (env : Env) : Prop :=
  forall query w,
    (exists response, fst (getMoodRecommendation env query w) = Normal (Some response))
    /\ fst (handleAIMood env query w) = Normal tt.

(** C7 as it is written, on the arithmetic of the program: within the
    ranges, the length of the projected point is the radius. *)
Definition projection_exact (m : Globe3D.MathLib) : Prop :=
  forall lat lon r : float,
    (-90 <=? lat)%float = true -> (lat <=? 90)%float = true ->
    (-180 <=? lon)%float = true -> (lon <=? 180)%float = true ->
    (0 <? r)%float = true ->
    Globe3D.vlength (Globe3D.binary64 m)
      (Globe3D.latLonToVector3 (Globe3D.binary64 m) lat lon r) = r.

(** The angle reached from [a] by [n] additions of the increment [d]. *)
Definition angleAfter (d : float) (n : nat) (a : float) : float :=
  Nat.iter n (fun x => (x + d)%float) a.

(* ================================================================== *)
(** * Facts about the JavaScript primitives *)
(* ================================================================== *)

Lemma map_has_keys {V} (m : JS.JsMap V) k :
  JS.map_has m k = seenb (map fst m) k.
Proof.
  unfold JS.map_has, seenb.
  induction m as [|[k' v] m IH]; simpl; [reflexivity|].
  now rewrite IH.
Qed.

Lemma seenb_In seen k : seenb seen k = true <-> In k seen.
Proof.
  unfold seenb. rewrite existsb_exists. split.
  - intros [k' [Hin Heq]]. apply String.eqb_eq in Heq. now subst.
  - intros Hin. exists k. split; [assumption|apply String.eqb_refl].
Qed.

Lemma seenb_false seen k : seenb seen k = false <-> ~ In k seen.
Proof.
  rewrite <- seenb_In. destruct (seenb seen k); split; intros; congruence.
Qed.

(** Setting a key the map does not hold appends the entry. *)
Lemma map_set_fresh {V} (m : JS.JsMap V) k v :
  JS.map_has m k = false -> JS.map_set m k v = (m ++ [(k, v)])%list.
Proof.
  induction m as [|[k' v'] m IH]; simpl; intros H; [reflexivity|].
  apply orb_false_iff in H. destruct H as [Hk Hm].
  rewrite Hk. now rewrite IH.
Qed.

(** ** The comparison function orders two classes *)

Lemma compare_priority a b :
  isTurkish a = true -> (compareStations a b <=? 0)%Z = true.
Proof.
  intros Ha. unfold compareStations. rewrite Ha. simpl.
  now destruct (isTurkish b).
Qed.

Lemma compare_ordinary a b :
  isTurkish a = false -> (compareStations a b <=? 0)%Z = negb (isTurkish b).
Proof.
  intros Ha. unfold compareStations. rewrite Ha. simpl.
  now destruct (isTurkish b).
Qed.

Lemma sort_insert_priority x l :
  isTurkish x = true -> JS.sort_insert compareStations x l = x :: l.
Proof.
  intros Hx. destruct l as [|y l]; simpl; [reflexivity|].
  now rewrite compare_priority.
Qed.

Lemma sort_insert_ordinary x P O :
  Forall (fun s => isTurkish s = true) P ->
  Forall (fun s => isTurkish s = false) O ->
  isTurkish x = false ->
  JS.sort_insert compareStations x (P ++ O)%list = (P ++ x :: O)%list.
Proof.
  intros HP HO Hx. induction HP as [|y P Hy HP IH]; simpl.
  - destruct HO as [|z O Hz HO]; simpl; [reflexivity|].
    rewrite (compare_ordinary _ _ Hx), Hz. reflexivity.
  - rewrite (compare_ordinary _ _ Hx), Hy. simpl. now rewrite IH.
Qed.

Lemma filter_priority_all l :
  Forall (fun s => isTurkish s = true) (filter isTurkish l).
Proof.
  apply Forall_forall. intros s Hs. now apply filter_In in Hs.
Qed.

Lemma filter_ordinary_all l :
  Forall (fun s => isTurkish s = false) (filter ordinary l).
Proof.
  apply Forall_forall. intros s Hs. apply filter_In in Hs.
  destruct Hs as [_ Hs]. unfold ordinary in Hs. now apply negb_true_iff in Hs.
Qed.

(** The sort of [init] is the stable partition of its input. *)
Lemma array_sort_partition l :
  JS.array_sort compareStations l = (filter isTurkish l ++ filter ordinary l)%list.
Proof.
  induction l as [|x l IH]; simpl; [reflexivity|].
  rewrite IH. unfold ordinary at 2. destruct (isTurkish x) eqn:Hx; simpl.
  - now apply sort_insert_priority.
  - apply sort_insert_ordinary; auto using filter_priority_all, filter_ordinary_all.
Qed.

Lemma partition_In (l : list RadioStation) s :
  In s (filter isTurkish l ++ filter ordinary l)%list <-> In s l.
Proof.
  rewrite in_app_iff, !filter_In. unfold ordinary.
  destruct (isTurkish s); simpl; intuition congruence.
Qed.

Lemma partition_NoDup_ids (l : list RadioStation) :
  NoDup (map stationuuid l) ->
  NoDup (map stationuuid (filter isTurkish l ++ filter ordinary l)%list).
Proof.
  induction l as [|x l IH]; simpl; intros H; [constructor|].
  inversion H as [|? ? Hx Hl]; subst. specialize (IH Hl).
  assert (Hnot : ~ In (stationuuid x)
                   (map stationuuid (filter isTurkish l ++ filter ordinary l)%list)).
  { intros Hin. apply in_map_iff in Hin. destruct Hin as [y [Hy Hin]].
    apply (proj1 (partition_In _ _)) in Hin. apply Hx. rewrite <- Hy. now apply in_map. }
  unfold ordinary at 1. destruct (isTurkish x); simpl.
  - now constructor.
  - rewrite map_app in *. simpl.
    apply NoDup_Add with (a := stationuuid x)
      (l := (map stationuuid (filter isTurkish l)
             ++ map stationuuid (filter ordinary l))%list).
    + apply Add_app.
    + split; assumption.
Qed.

(** ** The deduplicating [forEach] *)

Lemma fold_dedupStep l :
  forall m, fold_left dedupStep l m = (m ++ entries (firstGeo (map fst m) l))%list.
Proof.
  induction l as [|s l IH]; intros m; simpl.
  - now rewrite app_nil_r.
  - unfold dedupStep at 2. rewrite map_has_keys.
    destruct (hasGeo s && negb (seenb (map fst m) (stationuuid s))) eqn:Hc.
    + apply andb_true_iff in Hc. destruct Hc as [_ Hc].
      apply negb_true_iff in Hc.
      rewrite map_set_fresh by now rewrite map_has_keys.
      rewrite IH, map_app. simpl. now rewrite <- app_assoc.
    + apply IH.
Qed.

Lemma dedupStations_values l :
  JS.map_values (dedupStations l) = firstGeo [] l.
Proof.
  unfold dedupStations, JS.map_values. rewrite fold_dedupStep. simpl.
  unfold entries. rewrite map_map. simpl. apply map_id.
Qed.

Lemma finalStationsOf_partition l :
  finalStationsOf l
  = (filter isTurkish (firstGeo [] l) ++ filter ordinary (firstGeo [] l))%list.
Proof.
  unfold finalStationsOf. now rewrite array_sort_partition, dedupStations_values.
Qed.

Lemma firstGeo_In seen l s :
  In s (firstGeo seen l) ->
  In s l /\ hasGeo s = true /\ ~ In (stationuuid s) seen.
Proof.
  revert seen. induction l as [|x l IH]; simpl; intros seen H; [contradiction|].
  destruct (hasGeo x && negb (seenb seen (stationuuid x))) eqn:Hc.
  - apply andb_true_iff in Hc. destruct Hc as [Hg Hn].
    apply negb_true_iff, seenb_false in Hn.
    destruct H as [<-|H]; [auto|].
    apply IH in H. destruct H as [Hin [Hgs Hs]].
    repeat split; auto. intros Hin'. apply Hs. apply in_or_app. now left.
  - apply IH in H. tauto.
Qed.

Lemma firstGeo_NoDup seen l :
  NoDup (map stationuuid (firstGeo seen l)).
Proof.
  revert seen. induction l as [|x l IH]; simpl; intros seen; [constructor|].
  destruct (hasGeo x && negb (seenb seen (stationuuid x))); [|apply IH].
  simpl. constructor; [|apply IH].
  intros Hin. apply in_map_iff in Hin. destruct Hin as [y [Hy Hin]].
  apply firstGeo_In in Hin. destruct Hin as [_ [_ Hn]].
  apply Hn. rewrite Hy. apply in_or_app. right. now left.
Qed.

Lemma firstGeo_app seen l1 l2 :
  firstGeo seen (l1 ++ l2)%list
  = (firstGeo seen l1
     ++ firstGeo (seen ++ map stationuuid (firstGeo seen l1))%list l2)%list.
Proof.
  revert seen. induction l1 as [|x l1 IH]; simpl; intros seen.
  - now rewrite app_nil_r.
  - destruct (hasGeo x && negb (seenb seen (stationuuid x))); [|apply IH].
    simpl. rewrite IH. now rewrite <- app_assoc.
Qed.

(** The first record passing the geo test under an identifier is kept. *)
Lemma firstGeo_keeps_first seen l1 t l2 :
  hasGeo t = true ->
  ~ In (stationuuid t) seen ->
  (forall u, In u l1 -> hasGeo u = true -> stationuuid u <> stationuuid t) ->
  In t (firstGeo seen (l1 ++ t :: l2)%list).
Proof.
  intros Hg Hseen Hfirst. rewrite firstGeo_app. apply in_or_app. right.
  simpl. rewrite Hg. simpl.
  assert (Hn : seenb (seen ++ map stationuuid (firstGeo seen l1))%list (stationuuid t)
               = false).
  { apply seenb_false. intros Hin. apply in_app_or in Hin.
    destruct Hin as [Hin|Hin]; [now apply Hseen|].
    apply in_map_iff in Hin. destruct Hin as [u [Hu Hin]].
    apply firstGeo_In in Hin. destruct Hin as [Hin [Hgu _]].
    now apply (Hfirst u). }
  rewrite Hn. simpl. now left.
Qed.

Lemma NoDup_map_inj {A B} (f : A -> B) (l : list A) a b :
  NoDup (map f l) -> In a l -> In b l -> f a = f b -> a = b.
Proof.
  induction l as [|x l IH]; simpl; intros Hnd Ha Hb Hf; [contradiction|].
  inversion Hnd as [|? ? Hx Hl]; subst.
  destruct Ha as [->|Ha], Hb as [->|Hb]; auto.
  - exfalso. apply Hx. rewrite Hf. now apply in_map.
  - exfalso. apply Hx. rewrite <- Hf. now apply in_map.
Qed.

(** A list already without duplicates and passing the geo test is kept
    as it is. *)
Lemma firstGeo_fixed seen l :
  Forall (fun s => hasGeo s = true) l ->
  NoDup (map stationuuid l) ->
  (forall s, In s l -> ~ In (stationuuid s) seen) ->
  firstGeo seen l = l.
Proof.
  revert seen. induction l as [|x l IH]; simpl; intros seen Hg Hnd Hs; [reflexivity|].
  inversion Hg as [|? ? Hgx Hgl]; subst.
  inversion Hnd as [|? ? Hx Hl]; subst.
  rewrite Hgx. simpl.
  assert (Hn : seenb seen (stationuuid x) = false).
  { apply seenb_false. apply Hs. now left. }
  rewrite Hn. simpl. f_equal. apply IH; auto.
  intros s Hin Hin'. apply in_app_or in Hin'. destruct Hin' as [Hin'|Hin'].
  - apply (Hs s); auto.
  - simpl in Hin'. destruct Hin' as [Heq|[]].
    apply Hx. rewrite Heq. now apply in_map.
Qed.

Lemma hasGeo_coordsPresent s : hasGeo s = true -> coordsPresent s.
Proof.
  unfold hasGeo, coordsPresent. intros H. apply andb_true_iff in H.
  destruct H as [Hlat Hlon].
  destruct (geo_lat s), (geo_long s); simpl in *; try discriminate.
  split; discriminate.
Qed.

Lemma filter_all {A} (p : A -> bool) (l : list A) :
  Forall (fun x => p x = true) l -> filter p l = l.
Proof.
  induction 1 as [|x l Hx _ IH]; simpl; [reflexivity|]. now rewrite Hx, IH.
Qed.

Lemma filter_none {A} (p : A -> bool) (l : list A) :
  Forall (fun x => p x = false) l -> filter p l = [].
Proof.
  induction 1 as [|x l Hx _ IH]; simpl; [reflexivity|]. now rewrite Hx.
Qed.

(** A list whose priority records come first is its own partition. *)
Lemma partition_priority_first P O :
  Forall (fun s => isTurkish s = true) P ->
  Forall (fun s => isTurkish s = false) O ->
  (filter isTurkish (P ++ O) ++ filter ordinary (P ++ O))%list = (P ++ O)%list.
Proof.
  intros HP HO. rewrite !filter_app.
  rewrite (filter_all isTurkish P HP), (filter_none isTurkish O HO).
  rewrite (filter_none ordinary P), (filter_all ordinary O).
  - simpl. now rewrite app_nil_r.
  - eapply Forall_impl; [|exact HO]. intros s Hs. unfold ordinary. now rewrite Hs.
  - eapply Forall_impl; [|exact HP]. intros s Hs. unfold ordinary. now rewrite Hs.
Qed.

(** A list with unique identifiers, passing the geo test and with its
    priority records first is returned as it is. *)
Lemma finalStationsOf_fixed P O :
  NoDup (map stationuuid (P ++ O)%list) ->
  Forall (fun s => hasGeo s = true) (P ++ O)%list ->
  Forall (fun s => isTurkish s = true) P ->
  Forall (fun s => isTurkish s = false) O ->
  finalStationsOf (P ++ O)%list = (P ++ O)%list.
Proof.
  intros Hnd Hg HP HO. rewrite finalStationsOf_partition.
  rewrite firstGeo_fixed; auto. now apply partition_priority_first.
Qed.

Lemma finalStationsOf_In l s :
  In s (finalStationsOf l) <-> In s (firstGeo [] l).
Proof. rewrite finalStationsOf_partition. apply partition_In. Qed.

Lemma finalStationsOf_NoDup l :
  NoDup (map stationuuid (finalStationsOf l)).
Proof.
  rewrite finalStationsOf_partition. apply partition_NoDup_ids, firstGeo_NoDup.
Qed.

(** Every record of the reconciled catalog has both coordinates. *)
Lemma reconcile_coordsPresent resultSets s :
  In s (reconcile resultSets) -> coordsPresent s.
Proof.
  unfold reconcile. intros H. apply finalStationsOf_In, firstGeo_In in H.
  now apply hasGeo_coordsPresent.
Qed.

(** Every record left by [filterResults] has both coordinates. *)
Lemma filterResults_coordsPresent results s :
  In s (filterResults results) -> coordsPresent s.
Proof.
  unfold filterResults. intros H. apply filter_In in H.
  now apply hasGeo_coordsPresent.
Qed.

(* ================================================================== *)
(** * Catalog reconciliation: the properties of the specification *)
(* ================================================================== *)

(** C3 (fails on the code). The claim lets a record with both coordinates
    present survive the geo step whatever their values, 0 included. The
    test of the sources is [s.geo_lat && s.geo_long], and the number 0 is
    falsy: a station at latitude 0 whose coordinates are both present is
    dropped by [filterResults] and by [reconcile]. *)
Theorem geo_filter_drops_zero_coordinate :
  coordsPresent equatorStation
  /\ filterResults [equatorStation] = []
  /\ reconcile [[equatorStation]] = [].
Proof.
  split; [|split].
  - split; discriminate.
  - reflexivity.
  - reflexivity.
Qed.

(** The part of C3 that holds: the geo step keeps exactly the records
    whose two coordinates are truthy numbers, so every record it keeps has
    both coordinates present. *)
Lemma filterResults_spec results s :
  In s (filterResults results)
  <-> In s results
      /\ exists lat lon, geo_lat s = Some lat /\ geo_long s = Some lon
           /\ JS.truthy_number lat = true /\ JS.truthy_number lon = true.
Proof.
  unfold filterResults. rewrite filter_In. unfold hasGeo. split.
  - intros [Hin H]. split; [assumption|].
    apply andb_true_iff in H. destruct H as [Hlat Hlon].
    destruct (geo_lat s) as [lat|], (geo_long s) as [lon|]; simpl in *;
      try discriminate.
    now exists lat, lon.
  - intros [Hin [lat [lon [Hlat [Hlon [Ht1 Ht2]]]]]]. split; [assumption|].
    rewrite Hlat, Hlon. simpl. now rewrite Ht1, Ht2.
Qed.




(** C5. The priority reorder of [reconcile] is a stable partition: the
    sort returns the priority records of its input in their original
    order, followed by the ordinary records in their original order; so
    the output of [reconcile] is such a partition of the deduplicated
    records, and the input order [p1, o1, p2, o2] gives [p1, p2, o1, o2]. *)
Theorem priority_reorder_stable_partition :
  (forall finalStations : list RadioStation,
      JS.array_sort compareStations finalStations
      = (filter isTurkish finalStations
         ++ filter (fun s => negb (isTurkish s)) finalStations)%list)
  /\ (forall resultSets : list (list RadioStation),
        exists P O,
          reconcile resultSets = (P ++ O)%list
          /\ Forall (fun s => isTurkish s = true) P
          /\ Forall (fun s => isTurkish s = false) O
          /\ P = filter isTurkish (JS.map_values (dedupStations (List.concat resultSets)))
          /\ O = filter (fun s => negb (isTurkish s))
                   (JS.map_values (dedupStations (List.concat resultSets))))
  /\ reconcile [[p1; o1; p2; o2]] = [p1; p2; o1; o2].
Proof.
  split; [|split].
  - intros l. apply array_sort_partition.
  - intros resultSets.
    exists (filter isTurkish (JS.map_values (dedupStations (List.concat resultSets)))),
           (filter ordinary (JS.map_values (dedupStations (List.concat resultSets)))).
    repeat split.
    + unfold reconcile, finalStationsOf. apply array_sort_partition.
    + apply filter_priority_all.
    + apply filter_ordinary_all.
  - reflexivity.
Qed.

(** C6. [reconcile] is idempotent: reconciling the output of a
    reconciliation returns it unchanged, in the same order; more
    generally, so does any sequence with unique identifiers whose records
    all pass the geo test and whose priority records come first. *)
Theorem reconcile_idempotent :
  (forall resultSets : list (list RadioStation),
      reconcile [reconcile resultSets] = reconcile resultSets)
  /\ (forall P O : list RadioStation,
        NoDup (map stationuuid (P ++ O)%list) ->
        Forall (fun s => hasGeo s = true) (P ++ O)%list ->
        Forall (fun s => isTurkish s = true) P ->
        Forall (fun s => isTurkish s = false) O ->
        reconcile [(P ++ O)%list] = (P ++ O)%list).
Proof.
  assert (Hfix : forall P O : list RadioStation,
             NoDup (map stationuuid (P ++ O)%list) ->
             Forall (fun s => hasGeo s = true) (P ++ O)%list ->
             Forall (fun s => isTurkish s = true) P ->
             Forall (fun s => isTurkish s = false) O ->
             reconcile [(P ++ O)%list] = (P ++ O)%list).
  { intros P O Hnd Hg HP HO. unfold reconcile. simpl. rewrite app_nil_r.
    now apply finalStationsOf_fixed. }
  split; [|exact Hfix].
  intros resultSets. unfold reconcile at 2 3.
  rewrite finalStationsOf_partition.
  set (u := firstGeo [] (List.concat resultSets)).
  apply Hfix.
  - apply partition_NoDup_ids, firstGeo_NoDup.
  - apply Forall_forall. intros s Hs.
    apply (proj1 (partition_In _ _)) in Hs. now apply firstGeo_In in Hs.
  - apply filter_priority_all.
  - apply filter_ordinary_all.
Qed.

Lemma reconcile_idempotent_witness :
  reconcile [([p1; p2] ++ [o1; o2])%list] = ([p1; p2] ++ [o1; o2])%list.
Proof.
  apply (proj2 reconcile_idempotent [p1; p2] [o1; o2]).
  - simpl. repeat constructor; simpl; intuition discriminate.
  - repeat constructor.
  - repeat constructor.
  - repeat constructor.
Defined.

(* ================================================================== *)
(** * Facts about the services *)
(* ================================================================== *)

Lemma queries_app l1 l2 : queries (l1 ++ l2)%list = (queries l1 ++ queries l2)%list.
Proof.
  induction l1 as [|ev l1 IH]; simpl; [reflexivity|].
  destruct ev; simpl; now rewrite IH.
Qed.

Lemma queries_requestOf env filter :
  queries (requestOf env filter)
  = if uriMalformed filter then [] else [searchUrl env filter].
Proof. unfold requestOf. now destruct (uriMalformed filter). Qed.

(** The statements that build the URL throw exactly on a malformed
    filter, and give [searchUrl] otherwise. *)
Lemma buildSearchUrl_spec env filter :
  buildSearchUrl env filter
  = if uriMalformed filter then Throw (mkError "URI malformed")
    else Normal (searchUrl env filter).
Proof.
  destruct filter as [c t n l].
  unfold buildSearchUrl, searchUrl, uriMalformed, fieldMalformed, encodeURIComponent_js.
  cbn [f_country f_tag f_name f_limit].
  destruct c as [c|]; [destruct (JS.truthy_string c), (JS.isWellFormed c)|];
    cbn [andb orb negb]; try reflexivity;
    (destruct t as [t|]; [destruct (JS.truthy_string t), (JS.isWellFormed t)|];
     cbn [andb orb negb]; try reflexivity;
     (destruct n as [n|]; [destruct (JS.truthy_string n), (JS.isWellFormed n)|];
      cbn [andb orb negb]; reflexivity)).
Qed.

Ltac run_case results extra :=
  exists results, extra; split;
  [reflexivity | intros a; simpl; rewrite <- ?app_assoc; reflexivity].

(** A run of [searchStations]: it completes normally, leaves the
    application state alone, and logs its request, if it could build one,
    followed by console output only. Its result and log depend on the
    history alone. *)
Lemma searchStations_run env filter h :
  exists results extra,
    quiet extra
    /\ forall a,
         searchStations env filter (mkWorld a h)
         = (Normal results, mkWorld a (h ++ requestOf env filter ++ extra)%list).
Proof.
  unfold searchStations, try_catch, bind, do_fetch, history, emit, await, throw,
    console_error, ret, quiet, requestOf.
  rewrite buildSearchUrl_spec. destruct (uriMalformed filter); simpl.
  - run_case (@nil RadioStation)
      [EvConsoleError "Error searching stations:" (mkError "URI malformed")].
  - destruct (fetch env h (searchUrl env filter)) as [r|e].
    + destruct (r_ok r); simpl.
      * destruct (r_json r) as [l|e].
        -- run_case l (@nil Event).
        -- run_case (@nil RadioStation) [EvConsoleError "Error searching stations:" e].
      * run_case (@nil RadioStation)
          [EvConsoleError "Error searching stations:"
             (mkError "Failed to search stations")].
    + run_case (@nil RadioStation) [EvConsoleError "Error searching stations:" e].
Qed.

Lemma fetchTopStations_run env limit h :
  exists results extra,
    quiet extra
    /\ forall a,
         fetchTopStations env limit (mkWorld a h)
         = (Normal results, mkWorld a (h ++ EvFetch (topUrl env limit) :: extra)%list).
Proof.
  unfold fetchTopStations, try_catch, bind, do_fetch, history, emit, await, throw,
    console_error, ret, quiet. simpl.
  destruct (fetch env h (topUrl env limit)) as [r|e].
  - destruct (r_ok r); simpl.
    + destruct (r_json r) as [l|e].
      * run_case l (@nil Event).
      * run_case (@nil RadioStation) [EvConsoleError "Error fetching top stations:" e].
    + run_case (@nil RadioStation)
        [EvConsoleError "Error fetching top stations:" (mkError "Failed to fetch stations")].
  - run_case (@nil RadioStation) [EvConsoleError "Error fetching top stations:" e].
Qed.

(** A run of [getMoodRecommendation]: it completes normally, leaves the
    application state alone and issues no catalog request. *)
Lemma getMoodRecommendation_run env userQuery h :
  exists response extra,
    quiet extra
    /\ forall a,
         getMoodRecommendation env userQuery (mkWorld a h)
         = (Normal response, mkWorld a (h ++ extra)%list).
Proof.
  unfold getMoodRecommendation, try_catch, bind, do_generateContent, history, emit,
    await, throw, console_error, ret, quiet. simpl.
  destruct (generateContent env h (moodRequest userQuery)) as [r|e].
  - destruct (JS.truthy_opt_string (g_text r)); simpl.
    + destruct (JSON_parse env _) as [m|e].
      * run_case m [EvGenerateContent (moodRequest userQuery)].
      * run_case (Some fallbackMood)
          [EvGenerateContent (moodRequest userQuery);
           EvConsoleError "Gemini Mood Error:" e].
    + run_case (Some fallbackMood)
        [EvGenerateContent (moodRequest userQuery);
         EvConsoleError "Gemini Mood Error:" (mkError "No text returned")].
  - run_case (Some fallbackMood)
      [EvGenerateContent (moodRequest userQuery);
       EvConsoleError "Gemini Mood Error:" e].
Qed.

(** A transport failure of [searchStations] is recovered as the empty
    array. *)
Lemma searchStations_transport_failure env filter w :
  (forall r, fetch env (log w) (searchUrl env filter) = Normal r -> r_ok r = false) ->
  fst (searchStations env filter w) = Normal [].
Proof.
  intros H.
  unfold searchStations, try_catch, bind, do_fetch, history, emit, await, throw,
    console_error, ret.
  rewrite buildSearchUrl_spec. destruct (uriMalformed filter); simpl; [reflexivity|].
  destruct (fetch env (log w) (searchUrl env filter)) as [r|e]; [|reflexivity].
  now rewrite (H r eq_refl).
Qed.

(** A filter whose URL cannot be built gives the empty array, and no
    request. *)
Lemma searchStations_malformed env filter w :
  uriMalformed filter = true ->
  fst (searchStations env filter w) = Normal []
  /\ queries (log (snd (searchStations env filter w))) = queries (log w).
Proof.
  intros H.
  unfold searchStations, try_catch, bind, do_fetch, history, emit, await, throw,
    console_error, ret.
  rewrite buildSearchUrl_spec, H. simpl. split; [reflexivity|].
  rewrite queries_app. simpl. now rewrite app_nil_r.
Qed.

Lemma fetchTopStations_transport_failure env limit w :
  (forall r, fetch env (log w) (topUrl env limit) = Normal r -> r_ok r = false) ->
  fst (fetchTopStations env limit w) = Normal [].
Proof.
  intros H.
  unfold fetchTopStations, try_catch, bind, do_fetch, history, emit, await, throw,
    console_error, ret. simpl.
  destruct (fetch env (log w) (topUrl env limit)) as [r|e]; [|reflexivity].
  now rewrite (H r eq_refl).
Qed.

(** When the inference call rejects, returns no text, or returns a text
    that [JSON.parse] rejects, [getMoodRecommendation] returns the fixed
    fallback. *)
Lemma getMoodRecommendation_failure env userQuery w :
  (forall r t,
      generateContent env (log w) (moodRequest userQuery) = Normal r ->
      g_text r = Some t ->
      JS.truthy_string t = true ->
      exists e, JSON_parse env t = Throw e) ->
  fst (getMoodRecommendation env userQuery w) = Normal (Some fallbackMood).
Proof.
  intros H.
  unfold getMoodRecommendation, try_catch, bind, do_generateContent, history, emit,
    await, throw, console_error, ret. simpl.
  destruct (generateContent env (log w) (moodRequest userQuery)) as [r|e];
    [|reflexivity].
  specialize (H r).
  destruct (g_text r) as [t|]; simpl; [|reflexivity].
  destruct (JS.truthy_string t) eqn:Ht; simpl; [|reflexivity].
  destruct (H t eq_refl eq_refl Ht) as [e He]. now rewrite He.
Qed.

(** A text that [JSON.parse] accepts is returned as parsed. *)
Lemma getMoodRecommendation_parsed env userQuery w r t v :
  generateContent env (log w) (moodRequest userQuery) = Normal r ->
  g_text r = Some t ->
  JS.truthy_string t = true ->
  JSON_parse env t = Normal v ->
  fst (getMoodRecommendation env userQuery w) = Normal v.
Proof.
  intros Hr Ht Htt Hv.
  unfold getMoodRecommendation, try_catch, bind, do_generateContent, history, emit,
    await, throw, console_error, ret. simpl.
  rewrite Hr, Ht. simpl. rewrite Htt, Hv. reflexivity.
Qed.

(** [primaryFilter] carries the country and the tag of the response when
    they are truthy and omits them otherwise; it never carries a name. *)
Lemma primaryFilter_spec response :
  primaryFilter response
  = mkFilter (if JS.truthy_opt_string (m_country response) then m_country response
              else None)
             (if JS.truthy_opt_string (m_tag response) then m_tag response else None)
             None (Some 50%float).
Proof.
  unfold primaryFilter.
  destruct (JS.truthy_opt_string (m_country response)),
           (JS.truthy_opt_string (m_tag response)); reflexivity.
Qed.

(** A run of [handleAIMood], in terms of the runs of the services it
    awaits: it throws on a [null] response, before any catalog request,
    and otherwise installs the primary or the looser result. *)
Lemma handleAIMood_run env query a h :
  exists parsed ex1,
    quiet ex1
    /\ (forall a', getMoodRecommendation env query (mkWorld a' h)
                   = (Normal parsed, mkWorld a' (h ++ ex1)%list))
    /\ match parsed with
       | None =>
           handleAIMood env query (mkWorld a h)
           = (Throw nullPropertyError,
              mkWorld (mkApp (stations a) (currentStation a) (isPlaying a) (volume a)
                             "AI is finding your frequency..." true)
                      (h ++ ex1)%list)
       | Some response =>
           exists results ex2 loose ex3,
             quiet ex2 /\ quiet ex3
             /\ (forall a', searchStations env (primaryFilter response)
                              (mkWorld a' (h ++ ex1)%list)
                            = (Normal results,
                               mkWorld a' ((h ++ ex1)
                                           ++ requestOf env (primaryFilter response)
                                           ++ ex2)%list))
             /\ (forall a', searchStations env (looseFilter response)
                              (mkWorld a' ((h ++ ex1)
                                           ++ requestOf env (primaryFilter response)
                                           ++ ex2)%list)
                            = (Normal loose,
                               mkWorld a' (((h ++ ex1)
                                            ++ requestOf env (primaryFilter response)
                                            ++ ex2)
                                           ++ requestOf env (looseFilter response)
                                           ++ ex3)%list))
             /\ handleAIMood env query (mkWorld a h)
                = if (List.length (filter hasGeo results) =? 0)%nat
                     && JS.truthy_opt_string (m_tag response)
                  then (Normal tt,
                        mkWorld (mkApp (filter hasLat loose) (currentStation a)
                                       (isPlaying a) (volume a)
                                       (m_explanation response) false)
                                (((h ++ ex1)
                                  ++ requestOf env (primaryFilter response) ++ ex2)
                                 ++ requestOf env (looseFilter response) ++ ex3)%list)
                  else (Normal tt,
                        mkWorld (mkApp (filter hasGeo results) (currentStation a)
                                       (isPlaying a) (volume a)
                                       (m_explanation response) false)
                                ((h ++ ex1)
                                 ++ requestOf env (primaryFilter response)
                                 ++ ex2)%list)
       end.
Proof.
  destruct (getMoodRecommendation_run env query h) as [parsed [ex1 [Hq1 Hm]]].
  exists parsed, ex1. split; [assumption|]. split; [assumption|].
  destruct parsed as [response|].
  - destruct (searchStations_run env (primaryFilter response) (h ++ ex1)%list)
      as [results [ex2 [Hq2 Hs]]].
    destruct (searchStations_run env (looseFilter response)
                ((h ++ ex1) ++ requestOf env (primaryFilter response) ++ ex2)%list)
      as [loose [ex3 [Hq3 Hl]]].
    exists results, ex2, loose, ex3.
    repeat (split; [assumption|]).
    unfold handleAIMood, bind, setLoading, setAiInsight, setStations, setApp, ret.
    cbn [app log stations currentStation isPlaying volume aiInsight loading].
    rewrite Hm. cbn [app log stations currentStation isPlaying volume aiInsight loading].
    rewrite Hs.
    destruct ((List.length (filter hasGeo results) =? 0)%nat
              && JS.truthy_opt_string (m_tag response)).
    + rewrite Hl. reflexivity.
    + reflexivity.
  - unfold handleAIMood, bind, setLoading, setAiInsight, setStations, setApp, throw.
    cbn [app log stations currentStation isPlaying volume aiInsight loading].
    rewrite Hm. reflexivity.
Qed.

(* ================================================================== *)
(** * Mood query planner: the properties of the specification *)
(* ================================================================== *)

(** C2 (fails on the code). The claim has every record installed from the
    looser query carry a latitude and a longitude. The fallback branch of
    [handleAIMood] filters with [s.geo_lat] alone, where the primary
    branch and [handleSearch] test [s.geo_lat && s.geo_long]: in the
    scenario of the specification, with a looser response holding a record
    with a latitude and no longitude, that record is installed. *)
Theorem fallback_installs_record_without_longitude :
  let w' := snd (handleAIMood tokyoEnv "Rainy jazz cafe in Tokyo" world0) in
  stations (app w') = [latOnly]
  /\ geo_lat latOnly <> None
  /\ geo_long latOnly = None
  /\ filterResults [latOnly] = [].
Proof.
  cbv zeta. split; [vm_compute; reflexivity|].
  split; [discriminate|]. split; reflexivity.
Qed.

(** C8 (fails on the code). The claim has the looser query issued
    exactly when the primary result holds no geo-valid record. The test of
    [handleAIMood] is the length of [results.filter(s => s.geo_lat &&
    s.geo_long)], and the number 0 is falsy: in the scenario of the
    specification, with a primary response holding one station on the
    equator, both coordinates present, the looser query is issued all the
    same and its result replaces the station. *)
Theorem fallback_issued_despite_geo_valid_record :
  let w1 := snd (getMoodRecommendation equatorEnv "Rainy jazz cafe in Tokyo" world0) in
  let r := handleAIMood equatorEnv "Rainy jazz cafe in Tokyo" world0 in
  fst (searchStations equatorEnv (primaryFilter tokyoMood) w1) = Normal [equatorStation]
  /\ coordsPresent equatorStation
  /\ queries (log (snd r))
     = [searchUrl equatorEnv (mkFilter (Some "Japan") (Some "jazz") None (Some 50%float));
        searchUrl equatorEnv (mkFilter None (Some "jazz") None (Some 50%float))]
  /\ stations (app (snd r)) = [].
Proof.
  cbv zeta. split; [vm_compute; reflexivity|].
  split; [split; discriminate|].
  split; vm_compute; reflexivity.
Qed.

(** The scenario of the specification: country Japan and tag jazz, no
    record for the primary request; the two requests, in order. *)
Example tokyo_scenario :
  queries (log (snd (handleAIMood tokyoEnv "Rainy jazz cafe in Tokyo" world0)))
  = [searchUrl tokyoEnv (mkFilter (Some "Japan") (Some "jazz") None (Some 50%float));
     searchUrl tokyoEnv (mkFilter None (Some "jazz") None (Some 50%float))].
Proof. vm_compute. reflexivity. Qed.

(** C9 (fails on the code). The claim has every failure path of the mood
    operation end in the fixed fallback, and none be fatal. When the
    inference service answers the JSON text [null], [JSON.parse] accepts
    it, the unchecked cast lets [getMoodRecommendation] return [null] and
    not the fallback, and [handleAIMood], which has no [try] of its own
    where [init] has one, throws on [response.explanation] before any
    catalog request and leaves loading [true]. *)
Theorem null_response_is_not_recovered :
  let r := handleAIMood nullEnv "Rainy jazz cafe in Tokyo" world0 in
  fst (getMoodRecommendation nullEnv "Rainy jazz cafe in Tokyo" world0) = Normal None
  /\ fst r = Throw nullPropertyError
  /\ loading (app (snd r)) = true
  /\ queries (log (snd r)) = []
  /\ ~ every_mood_failure_recovered nullEnv.
Proof.
  cbv zeta. repeat (split; [vm_compute; reflexivity|]).
  intros H. destruct (H "Rainy jazz cafe in Tokyo" world0) as [_ Hrun].
  vm_compute in Hrun. discriminate Hrun.
Qed.

(** X22. No failure inside a service call is fatal. A catalog query
    whose transport fails (the request rejects, or the status is not a
    success) or whose URL cannot be built returns the empty array, and no
    catalog query throws; [getMoodRecommendation] returns the fixed
    fallback (the canned apology, the tag [pop]) when the inference call
    rejects, returns no text or returns a text that [JSON.parse] rejects,
    and never throws. A text that [JSON.parse] accepts is returned as
    parsed, whatever its shape. *)
Theorem service_failures_are_recovered (env : Env) :
  (forall filter w,
      (forall r, fetch env (log w) (searchUrl env filter) = Normal r -> r_ok r = false) ->
      fst (searchStations env filter w) = Normal [])
  /\ (forall filter w,
        uriMalformed filter = true ->
        fst (searchStations env filter w) = Normal [])
  /\ (forall limit w,
        (forall r, fetch env (log w) (topUrl env limit) = Normal r -> r_ok r = false) ->
        fst (fetchTopStations env limit w) = Normal [])
  /\ (forall filter w, exists results, fst (searchStations env filter w) = Normal results)
  /\ (forall limit w, exists results, fst (fetchTopStations env limit w) = Normal results)
  /\ (forall userQuery w,
        (forall r t,
            generateContent env (log w) (moodRequest userQuery) = Normal r ->
            g_text r = Some t ->
            JS.truthy_string t = true ->
            exists e, JSON_parse env t = Throw e) ->
        fst (getMoodRecommendation env userQuery w) = Normal (Some fallbackMood))
  /\ (forall userQuery w,
        exists parsed, fst (getMoodRecommendation env userQuery w) = Normal parsed)
  /\ (forall userQuery w r t parsed,
        generateContent env (log w) (moodRequest userQuery) = Normal r ->
        g_text r = Some t ->
        JS.truthy_string t = true ->
        JSON_parse env t = Normal parsed ->
        fst (getMoodRecommendation env userQuery w) = Normal parsed)
  /\ fallbackMood
     = mkMood None (Some "pop") "Couldn't quite catch that vibe. Try 'Jazz from France'.".
Proof.
  split; [intros; now apply searchStations_transport_failure|].
  split; [intros; now apply searchStations_malformed|].
  split; [intros; now apply fetchTopStations_transport_failure|].
  split.
  { intros filter [a h].
    destruct (searchStations_run env filter h) as [results [extra [_ H]]].
    exists results. now rewrite H. }
  split.
  { intros limit [a h].
    destruct (fetchTopStations_run env limit h) as [results [extra [_ H]]].
    exists results. now rewrite H. }
  split; [intros; now apply getMoodRecommendation_failure|].
  split.
  { intros userQuery [a h].
    destruct (getMoodRecommendation_run env userQuery h) as [parsed [extra [_ H]]].
    exists parsed. now rewrite H. }
  split; [intros; now apply (getMoodRecommendation_parsed env userQuery w r t)|].
  reflexivity.
Qed.

Lemma service_failures_are_recovered_witness :
  fst (searchStations offlineEnv (mkFilter None (Some "jazz") None (Some 50%float)) world0)
  = Normal []
  /\ fst (getMoodRecommendation offlineEnv "Rainy jazz cafe in Tokyo" world0)
     = Normal (Some fallbackMood).
Proof.
  split.
  - apply (proj1 (service_failures_are_recovered offlineEnv)).
    intros r H. discriminate H.
  - apply (proj1 (proj2 (proj2 (proj2 (proj2 (proj2
             (service_failures_are_recovered offlineEnv))))))).
    intros r t H. discriminate H.
Defined.

(** The empty-catalog scenario of the specification: the three initial
    queries fail, the catalog is empty and [init] completes. *)
Example init_offline :
  fst (init offlineEnv world0) = Normal tt
  /\ stations (app (snd (init offlineEnv world0))) = []
  /\ queries (log (snd (init offlineEnv world0)))
     = [topUrl offlineEnv 50%float;
        searchUrl offlineEnv (mkFilter (Some "Turkey") None None (Some 200%float));
        searchUrl offlineEnv (mkFilter None (Some "turkish") None (Some 100%float))].
Proof. repeat split; vm_compute; reflexivity. Qed.

(* ================================================================== *)
(** * Selection: the frame property *)
(* ================================================================== *)

(** C10. Selecting the station that is already selected only toggles
    playback: [handleStationSelect] completes normally, sends the audio
    element [pause] when playing and [play] otherwise, and leaves the
    selected station, the list of stations and every other cell of the
    application state as they were. *)
Theorem reselect_leaves_selection_and_catalog
        (env : Env) (station : RadioStation) (w : World) (cur : RadioStation) :
  currentStation (app w) = Some cur ->
  stationuuid cur = stationuuid station ->
  let r := handleStationSelect env station w in
  fst r = Normal tt
  /\ currentStation (app (snd r)) = currentStation (app w)
  /\ stations (app (snd r)) = stations (app w)
  /\ app (snd r) = app w
  /\ log (snd r)
     = (log w ++ [if isPlaying (app w) then EvAudioPause else EvAudioPlay])%list.
Proof.
  destruct w as [a h]. cbn [app log]. intros Hcur Hid. cbv zeta.
  assert (Hsame : sameStation (currentStation a) station = true).
  { unfold sameStation. rewrite Hcur, Hid. apply String.eqb_refl. }
  unfold handleStationSelect, bind, getApp. cbv beta. cbn [app log].
  rewrite Hsame.
  destruct (isPlaying a).
  - unfold audio_pause, emit. cbn. repeat split; reflexivity.
  - unfold audio_play, bind, history, emit, ret. cbn.
    destruct (play_rejects env h); cbn; repeat split; reflexivity.
Qed.

Lemma reselect_leaves_selection_and_catalog_witness :
  let w := mkWorld (mkApp [p1; o1] (Some p1) true 0.5%float "" false) [] in
  let r := handleStationSelect offlineEnv p1 w in
  fst r = Normal tt
  /\ currentStation (app (snd r)) = currentStation (app w)
  /\ stations (app (snd r)) = stations (app w)
  /\ app (snd r) = app w
  /\ log (snd r)
     = (log w ++ [if isPlaying (app w) then EvAudioPause else EvAudioPlay])%list.
Proof.
  intros w.
  apply (reselect_leaves_selection_and_catalog offlineEnv p1 w p1).
  - reflexivity.
  - reflexivity.
Defined.

(* ================================================================== *)
(** * The globe: projection and rotation *)
(* ================================================================== *)

Lemma angleAfter_succ d n a :
  angleAfter d (S n) a = angleAfter d n (a + d)%float.
Proof. unfold angleAfter. exact (Nat.iter_succ_r _ _ _ _). Qed.

(** [n] frames on three mounted objects: each [y] has received [n]
    additions of its own increment. *)
Lemma frames_mounted n :
  forall xe ye ze xc yc zc xr yr zr,
    Globe3D.frames n
      (Globe3D.mkScene
         (Some (Globe3D.mkObject3D (Globe3D.mkEuler xe ye ze)))
         (Some (Globe3D.mkObject3D (Globe3D.mkEuler xc yc zc)))
         (Some (Globe3D.mkObject3D (Globe3D.mkEuler xr yr zr))))
    = Globe3D.mkScene
        (Some (Globe3D.mkObject3D
                 (Globe3D.mkEuler xe (angleAfter 0.0005%float n ye) ze)))
        (Some (Globe3D.mkObject3D
                 (Globe3D.mkEuler xc (angleAfter 0.0007%float n yc) zc)))
        (Some (Globe3D.mkObject3D
                 (Globe3D.mkEuler xr (angleAfter 0.0005%float n yr) zr))).
Proof.
  induction n as [|n IH]; intros; [reflexivity|].
  rewrite !angleAfter_succ. cbn [Globe3D.frames].
  unfold Globe3D.frame, Globe3D.EarthRotator_useFrame, Globe3D.RealisticEarth_useFrame,
    Globe3D.spin, Globe3D.add_rotation_y.
  cbn [Globe3D.earthRef Globe3D.cloudsRef Globe3D.rotatorRef Globe3D.rotation
       Globe3D.ex Globe3D.ey Globe3D.ez].
  apply IH.
Qed.

(** One frame keeps the sphere and the marker container under the same
    rotation, whatever the scene. *)
Lemma frame_preserves_sync sc :
  Globe3D.rotationOf (Globe3D.rotatorRef sc) = Globe3D.rotationOf (Globe3D.earthRef sc) ->
  Globe3D.rotationOf (Globe3D.rotatorRef (Globe3D.frame sc))
  = Globe3D.rotationOf (Globe3D.earthRef (Globe3D.frame sc)).
Proof.
  destruct sc as [[[e]|] c [[r]|]]; simpl; intros H; try discriminate;
    [|reflexivity].
  injection H as ->. reflexivity.
Qed.

(** C1. Every frame adds the same fixed increment to the [y] rotation of
    the sphere mesh and of the container of the markers; so after any
    number [N] of frames from the mounted scene both carry the same
    rotation, whose angle is [N] additions of the increment to 0, and a
    marker transformed by the rotation of its container coincides with the
    same point transformed by the rotation of the sphere. *)
Theorem rotation_sync (N : nat) :
  let sc := Globe3D.frames N Globe3D.mountedScene in
  let rot := Globe3D.mkEuler 0%float (angleAfter 0.0005%float N 0%float) 0%float in
  Globe3D.rotationOf (Globe3D.earthRef sc) = Some rot
  /\ Globe3D.rotationOf (Globe3D.rotatorRef sc) = Some rot
  /\ Globe3D.rotationOf (Globe3D.rotatorRef (Globe3D.frame sc))
     = Globe3D.rotationOf (Globe3D.earthRef (Globe3D.frame sc))
  /\ forall (Point : Type) (applyRotation : Globe3D.Euler -> Point -> Point)
            (marker : Point),
       option_map (fun e => applyRotation e marker)
                  (Globe3D.rotationOf (Globe3D.rotatorRef sc))
       = option_map (fun e => applyRotation e marker)
                    (Globe3D.rotationOf (Globe3D.earthRef sc)).
Proof.
  cbv zeta. unfold Globe3D.mountedScene, Globe3D.unrotated.
  rewrite frames_mounted. cbn [Globe3D.earthRef Globe3D.rotatorRef].
  split; [reflexivity|]. split; [reflexivity|]. split; reflexivity.
Qed.

Lemma pole_seam_point (m : Globe3D.MathLib) (r : float) :
  Globe3D.latLonToVector3 (Globe3D.binary64 m) 90%float (-180)%float r
  = Globe3D.mkVector3 (- (r * 0 * 1))%float (r * 1)%float (r * 0 * 0)%float.
Proof.
  unfold Globe3D.latLonToVector3, Globe3D.binary64.
  cbn [Globe3D.n90 Globe3D.n180 Globe3D.Math_PI Globe3D.add Globe3D.sub Globe3D.mul
       Globe3D.div Globe3D.neg Globe3D.Math_sin Globe3D.Math_cos].
  assert (Ephi : ((90 - 90) * (3.141592653589793 / 180))%float = 0%float)
    by reflexivity.
  assert (Etheta : ((-180 + 180) * (3.141592653589793 / 180))%float = 0%float)
    by reflexivity.
  rewrite Ephi, Etheta.
  rewrite (Globe3D.engine_sin_zero m), (Globe3D.engine_cos_zero m). reflexivity.
Qed.




(* ================================================================== *)
(** * Further properties of the reconciliation *)
(* ================================================================== *)

Lemma firstGeo_covers seen l t :
  In t l -> hasGeo t = true -> ~ In (stationuuid t) seen ->
  exists s, In s (firstGeo seen l) /\ stationuuid s = stationuuid t.
Proof.
  revert seen. induction l as [|x l IH]; simpl; intros seen Hin Hg Hseen;
    [contradiction|].
  destruct (hasGeo x && negb (seenb seen (stationuuid x))) eqn:Hc.
  - destruct Hin as [->|Hin]; [exists t; split; [now left|reflexivity]|].
    destruct (String.string_dec (stationuuid x) (stationuuid t)) as [Heq|Hne].
    + exists x. split; [now left|assumption].
    + destruct (IH (seen ++ [stationuuid x])%list Hin Hg) as [s [Hs Hid]].
      * intros H. apply in_app_or in H. destruct H as [H|[H|[]]]; auto.
      * exists s. split; [now right|assumption].
  - destruct Hin as [->|Hin].
    + rewrite Hg in Hc. simpl in Hc. apply negb_false_iff, seenb_In in Hc.
      contradiction.
    + now apply IH.
Qed.

Lemma firstGeo_length seen l : List.length (firstGeo seen l) <= List.length l.
Proof.
  revert seen. induction l as [|x l IH]; simpl; intros seen; [constructor|].
  destruct (hasGeo x && negb (seenb seen (stationuuid x))); simpl.
  - apply le_n_S, IH.
  - apply le_S, IH.
Qed.

Lemma partition_length (l : list RadioStation) :
  List.length (filter isTurkish l ++ filter ordinary l)%list = List.length l.
Proof.
  induction l as [|x l IH]; simpl; [reflexivity|].
  unfold ordinary at 1. destruct (isTurkish x); simpl.
  - now rewrite IH.
  - rewrite length_app in *. simpl. rewrite <- plus_n_Sm. now rewrite IH.
Qed.

(** X1. [reconcile] neither loses an identifier nor invents a record:
    every record of the input that passes the geo test has its identifier
    in the output, every record of the output is a record of the input
    that passes the geo test, and the output is no longer than the
    input. *)
Theorem reconcile_covers_and_selects (resultSets : list (list RadioStation)) :
  (forall t, In t (List.concat resultSets) -> hasGeo t = true ->
             exists s, In s (reconcile resultSets) /\ stationuuid s = stationuuid t)
  /\ (forall s, In s (reconcile resultSets) ->
                In s (List.concat resultSets) /\ hasGeo s = true)
  /\ List.length (reconcile resultSets) <= List.length (List.concat resultSets).
Proof.
  unfold reconcile. split; [|split].
  - intros t Hin Hg.
    destruct (firstGeo_covers [] (List.concat resultSets) t Hin Hg) as [s [Hs Hid]];
      [intros []|].
    exists s. split; [now apply finalStationsOf_In|assumption].
  - intros s Hs. apply finalStationsOf_In, firstGeo_In in Hs. tauto.
  - rewrite finalStationsOf_partition, partition_length. apply firstGeo_length.
Qed.

Lemma reconcile_covers_and_selects_witness :
  exists s, In s (reconcile [[fooNoGeo]; [barGeo]])
            /\ stationuuid s = stationuuid barGeo.
Proof.
  apply (proj1 (reconcile_covers_and_selects [[fooNoGeo]; [barGeo]]) barGeo).
  - right. left. reflexivity.
  - reflexivity.
Defined.

(** ** [isTurkish] *)

(** ** [isTurkish] *)

Lemma toLowerCase_app a b :
  JS.toLowerCase (a ++ b) = JS.toLowerCase a ++ JS.toLowerCase b.
Proof.
  induction a as [|c a IH]; simpl; [reflexivity|]. now rewrite IH.
Qed.

Lemma prefix_app sub rest : String.prefix sub (sub ++ rest) = true.
Proof.
  induction sub as [|c sub IH]; simpl.
  - now destruct rest.
  - destruct (ascii_dec c c) as [_|Hne]; [assumption|now elim Hne].
Qed.

Lemma includes_prefix s sub : String.prefix sub s = true -> JS.includes s sub = true.
Proof. destruct s; simpl; intros ->; reflexivity. Qed.

Lemma includes_here sub rest : JS.includes (sub ++ rest) sub = true.
Proof. apply includes_prefix, prefix_app. Qed.

Lemma includes_app pre sub post : JS.includes (pre ++ sub ++ post) sub = true.
Proof.
  induction pre as [|c pre IH]; simpl.
  - apply includes_here.
  - rewrite IH. apply orb_true_r.
Qed.

(** X2. [isTurkish] finds its two tag words in any letter case and
    anywhere in the tag string: a station whose tags contain a substring
    that lowercases to [turkish] or to [turkey] is classified as priority,
    whatever its country and country code. *)
Theorem isTurkish_tag_any_case (s : RadioStation) (pre word post : string) :
  tags s = pre ++ word ++ post ->
  JS.toLowerCase word = "turkish" \/ JS.toLowerCase word = "turkey" ->
  isTurkish s = true.
Proof.
  intros Ht Hw. unfold isTurkish. rewrite Ht, !toLowerCase_app.
  destruct Hw as [Hw|Hw]; rewrite Hw.
  - rewrite (includes_app _ "turkish"). apply orb_true_r.
  - rewrite (includes_app _ "turkey"). rewrite orb_true_r. reflexivity.
Qed.

Lemma isTurkish_tag_any_case_witness :
  isTurkish (mkStation "x" "Radyo" "" "" "" "" "news,TURKISH pop" "Germany" "DE" ""
                       "" 0%float "" 0%float None None) = true.
Proof.
  apply (isTurkish_tag_any_case _ "news," "TURKISH" " pop").
  - reflexivity.
  - left. reflexivity.
Defined.

(* ================================================================== *)
(** * Further properties of the services *)
(* ================================================================== *)

(** X3. The URL of [searchStations] treats a falsy field as an absent
    one: a limit that is 0 or NaN, like a missing limit, is sent as 20,
    and an empty country, tag or name is not sent at all. *)
Theorem searchUrl_falsy_fields
        (env : Env) (c t n : option string) (l : float) (ol : option float) :
  (JS.truthy_number l = false ->
   searchUrl env (mkFilter c t n (Some l)) = searchUrl env (mkFilter c t n (Some 20%float)))
  /\ searchUrl env (mkFilter c t n None) = searchUrl env (mkFilter c t n (Some 20%float))
  /\ searchUrl env (mkFilter (Some "") t n ol) = searchUrl env (mkFilter None t n ol)
  /\ searchUrl env (mkFilter c (Some "") n ol) = searchUrl env (mkFilter c None n ol)
  /\ searchUrl env (mkFilter c t (Some "") ol) = searchUrl env (mkFilter c t None ol).
Proof.
  split; [|split; [|split; [|split]]].
  - intros Hl. unfold searchUrl. cbn [f_limit f_country f_tag f_name].
    rewrite Hl. reflexivity.
  - reflexivity.
  - reflexivity.
  - unfold searchUrl. cbn [f_limit f_country f_tag f_name]. reflexivity.
  - unfold searchUrl. cbn [f_limit f_country f_tag f_name]. reflexivity.
Qed.

Lemma searchUrl_falsy_fields_witness :
  searchUrl offlineEnv (mkFilter None (Some "jazz") None (Some 0%float))
  = searchUrl offlineEnv (mkFilter None (Some "jazz") None (Some 20%float)).
Proof.
  apply (proj1 (searchUrl_falsy_fields offlineEnv None (Some "jazz") None 0%float None)).
  reflexivity.
Defined.

(** X4. [getStationsByLocation] ignores the location and the radius: it
    is [fetchTopStations(50)], and its own [catch] never runs. *)
Theorem getStationsByLocation_is_top_stations
        (env : Env) (lat lng : float) (radius : option float) (w : World) :
  getStationsByLocation env lat lng radius w = fetchTopStations env 50%float w.
Proof.
  destruct w as [a h].
  destruct (fetchTopStations_run env 50%float h) as [results [extra [_ H]]].
  unfold getStationsByLocation, try_catch. now rewrite H.
Qed.

(** A run of [getStationInsight]: one inference request, then console
    output only; the result is never the empty string. *)
Lemma getStationInsight_run env stationName country tags h :
  exists insight extra,
    quiet extra
    /\ JS.truthy_string insight = true
    /\ forall a,
         getStationInsight env stationName country tags (mkWorld a h)
         = (Normal insight,
            mkWorld a (h ++ EvGenerateContent (insightRequest stationName country tags)
                         :: extra)%list).
Proof.
  unfold getStationInsight, try_catch, bind, do_generateContent, history, emit,
    await, throw, console_error, ret, quiet. simpl.
  destruct (generateContent env h (insightRequest stationName country tags)) as [r|e].
  - destruct (g_text r) as [t|].
    + destruct (JS.truthy_string t) eqn:Ht.
      * exists t, []. split; [reflexivity|]. split; [exact Ht|reflexivity].
      * exists "Enjoy the tunes!", []. split; [reflexivity|]. split; reflexivity.
    + exists "Enjoy the tunes!", []. split; [reflexivity|]. split; reflexivity.
  - exists "Tuning into global frequencies...",
      [EvConsoleError "Gemini Insight Error:" e].
    split; [reflexivity|]. split; [reflexivity|].
    intros a. simpl. rewrite <- ?app_assoc. reflexivity.
Qed.

(** X5. [getStationInsight] always answers with a non-empty sentence and
    never throws: the text of the response when it has one, [Enjoy the
    tunes!] when the text is missing or empty, [Tuning into global
    frequencies...] when the request rejects. *)
Theorem getStationInsight_answers
        (env : Env) (stationName country tags : string) (w : World) :
  exists insight,
    fst (getStationInsight env stationName country tags w) = Normal insight
    /\ JS.truthy_string insight = true
    /\ (forall e,
          generateContent env (log w) (insightRequest stationName country tags) = Throw e ->
          insight = "Tuning into global frequencies...")
    /\ (forall r,
          generateContent env (log w) (insightRequest stationName country tags) = Normal r ->
          JS.truthy_opt_string (g_text r) = false ->
          insight = "Enjoy the tunes!")
    /\ (forall r t,
          generateContent env (log w) (insightRequest stationName country tags) = Normal r ->
          g_text r = Some t -> JS.truthy_string t = true ->
          insight = t).
Proof.
  destruct w as [a h]. cbn [log].
  unfold getStationInsight, try_catch, bind, do_generateContent, history, emit,
    await, throw, console_error, ret. simpl.
  destruct (generateContent env h (insightRequest stationName country tags)) as [r|e].
  - destruct (g_text r) as [t|] eqn:Hr.
    + destruct (JS.truthy_string t) eqn:Ht.
      * exists t. repeat split; auto; try discriminate.
        -- intros r' H Hf. injection H as <-. rewrite Hr in Hf. simpl in Hf. congruence.
        -- intros r' t' H Ht'. injection H as <-. congruence.
      * exists "Enjoy the tunes!". repeat split; auto; try discriminate.
        intros r' t' H Ht' Htt. injection H as <-. congruence.
    + exists "Enjoy the tunes!". repeat split; auto; try discriminate.
      intros r' t' H Ht'. injection H as <-. congruence.
  - exists "Tuning into global frequencies...". repeat split; auto; discriminate.
Qed.

Lemma getStationInsight_answers_witness :
  exists insight,
    fst (getStationInsight offlineEnv "TRT FM" "Turkey" "pop" world0) = Normal insight
    /\ insight = "Tuning into global frequencies...".
Proof.
  destruct (getStationInsight_answers offlineEnv "TRT FM" "Turkey" "pop" world0)
    as [insight [Hrun [_ [Hthrow _]]]].
  exists insight. split; [exact Hrun|].
  apply (Hthrow (mkError "Network error")). reflexivity.
Defined.

(* ================================================================== *)
(** * Further properties of the handlers of [App] *)
(* ================================================================== *)

Lemma hasGeo_renders s : hasGeo s = true -> Globe3D.StationMarker_renders s = true.
Proof.
  unfold hasGeo, Globe3D.StationMarker_renders. intros H.
  apply andb_true_iff in H. destruct H as [-> ->]. reflexivity.
Qed.

Lemma foundMessage_not_none env n :
  foundMessage env n <> "No stations found for that search.".
Proof. unfold foundMessage. simpl. discriminate. Qed.

(** A run of [handleSearch]. *)
Lemma handleSearch_run env query a h :
  exists results extra,
    quiet extra
    /\ (forall a', fst (searchStations env (mkFilter None None (Some query) (Some 50%float))
                          (mkWorld a' h)) = Normal results)
    /\ handleSearch env query (mkWorld a h)
       = (Normal tt,
          mkWorld (mkApp (filterResults results) (currentStation a) (isPlaying a)
                         (volume a)
                         (if (List.length (filterResults results) =? 0)%nat
                          then "No stations found for that search."
                          else foundMessage env (List.length (filterResults results)))
                         false)
                  (h ++ requestOf env (mkFilter None None (Some query) (Some 50%float))
                     ++ extra)%list).
Proof.
  destruct (searchStations_run env (mkFilter None None (Some query) (Some 50%float)) h)
    as [results [extra [Hq Hs]]].
  exists results, extra. split; [assumption|]. split; [intros a'; now rewrite Hs|].
  unfold handleSearch, bind, setLoading, setAiInsight, setStations, setApp.
  cbn [app log stations currentStation isPlaying volume aiInsight loading].
  rewrite Hs.
  now destruct (List.length (filterResults results) =? 0)%nat.
Qed.

(** X6. Whenever [handleSearch] completes without throwing, it has
    installed the geo-filtered result of one call of [searchStations] for
    the name typed and at most 50 stations: every station of the new
    catalog has both coordinates and gets a marker; loading ends [false];
    the message is [No stations found for that search.] exactly when the
    new catalog is empty; and one request went out, or none when the
    query holds a lone surrogate. *)
Theorem handleSearch_effect (env : Env) (query : string) (w : World) :
  let f := mkFilter None None (Some query) (Some 50%float) in
  let w' := snd (handleSearch env query w) in
  fst (handleSearch env query w) = Normal tt ->
  exists results,
    fst (searchStations env f w) = Normal results
    /\ stations (app w') = filterResults results
    /\ (forall s, In s (stations (app w')) ->
                  coordsPresent s /\ Globe3D.StationMarker_renders s = true)
    /\ loading (app w') = false
    /\ (aiInsight (app w') = "No stations found for that search."
        <-> stations (app w') = [])
    /\ queries (log w')
       = (queries (log w)
          ++ (if JS.truthy_string query && negb (JS.isWellFormed query)
              then [] else [searchUrl env f]))%list.
Proof.
  cbv zeta. intros _. destruct w as [a h].
  destruct (handleSearch_run env query a h) as [results [extra [Hq [Hs Hrun]]]].
  exists results. rewrite Hrun. cbn [fst snd app log stations loading aiInsight].
  split; [apply Hs|]. split; [reflexivity|].
  split.
  { intros s Hin. unfold filterResults in Hin. apply filter_In in Hin.
    destruct Hin as [_ Hg]. split; [now apply hasGeo_coordsPresent|].
    now apply hasGeo_renders. }
  split; [reflexivity|]. split.
  - destruct (filterResults results) as [|x l]; simpl.
    + split; reflexivity.
    + split; [intros H; now apply foundMessage_not_none in H|discriminate].
  - rewrite !queries_app, queries_requestOf. unfold quiet in Hq. rewrite Hq.
    unfold uriMalformed, fieldMalformed. cbn [f_country f_tag f_name orb].
    now rewrite app_nil_r.
Qed.

Lemma handleSearch_effect_witness :
  stations (app (snd (handleSearch catalogEnv "jazz" world0))) = [p1; o1].
Proof.
  destruct (handleSearch_effect catalogEnv "jazz" world0 eq_refl)
    as [results [Hres [Hst _]]].
  rewrite Hst. vm_compute in Hres. injection Hres as <-. reflexivity.
Defined.

(** X7. A search whose transport fails empties the catalog: the stations
    shown before are replaced by none, with the message of an empty
    search. *)
Theorem handleSearch_transport_failure (env : Env) (query : string) (w : World) :
  (forall r, fetch env (log w)
               (searchUrl env (mkFilter None None (Some query) (Some 50%float)))
             = Normal r -> r_ok r = false) ->
  stations (app (snd (handleSearch env query w))) = []
  /\ aiInsight (app (snd (handleSearch env query w)))
     = "No stations found for that search.".
Proof.
  destruct w as [a h]. cbn [log]. intros Hfail.
  destruct (handleSearch_run env query a h) as [results [extra [Hq [Hs Hrun]]]].
  pose proof (searchStations_transport_failure env
                (mkFilter None None (Some query) (Some 50%float))
                (mkWorld a h) Hfail) as H0.
  rewrite (Hs a) in H0. injection H0 as ->.
  rewrite Hrun. split; reflexivity.
Qed.

Lemma handleSearch_transport_failure_witness :
  stations (app (snd (handleSearch offlineEnv "jazz"
                        (mkWorld (mkApp [p1; o1] None false 0.5%float "" false) []))))
  = [].
Proof.
  apply (handleSearch_transport_failure offlineEnv "jazz"
           (mkWorld (mkApp [p1; o1] None false 0.5%float "" false) [])).
  intros r H. discriminate H.
Defined.

(** A run of [init]. *)
Lemma init_run env a h :
  let fT := mkFilter (Some "Turkey") None None (Some 200%float) in
  let fG := mkFilter None (Some "turkish") None (Some 100%float) in
  exists globalData e1 turkishData e2 turkishTagData e3,
    quiet e1 /\ quiet e2 /\ quiet e3
    /\ (forall a', fetchTopStations env 50%float (mkWorld a' h)
                   = (Normal globalData,
                      mkWorld a' (h ++ EvFetch (topUrl env 50%float) :: e1)%list))
    /\ (forall a', searchStations env fT
                     (mkWorld a' (h ++ EvFetch (topUrl env 50%float) :: e1)%list)
                   = (Normal turkishData,
                      mkWorld a' ((h ++ EvFetch (topUrl env 50%float) :: e1)
                                  ++ EvFetch (searchUrl env fT) :: e2)%list))
    /\ (forall a', searchStations env fG
                     (mkWorld a' ((h ++ EvFetch (topUrl env 50%float) :: e1)
                                  ++ EvFetch (searchUrl env fT) :: e2)%list)
                   = (Normal turkishTagData,
                      mkWorld a' (((h ++ EvFetch (topUrl env 50%float) :: e1)
                                   ++ EvFetch (searchUrl env fT) :: e2)
                                  ++ EvFetch (searchUrl env fG) :: e3)%list))
    /\ init env (mkWorld a h)
       = (Normal tt,
          mkWorld (mkApp (reconcileInit turkishData turkishTagData globalData)
                         (currentStation a) (isPlaying a) (volume a) (aiInsight a) false)
                  (((h ++ EvFetch (topUrl env 50%float) :: e1)
                    ++ EvFetch (searchUrl env fT) :: e2)
                   ++ EvFetch (searchUrl env fG) :: e3)%list).
Proof.
  cbv zeta.
  destruct (fetchTopStations_run env 50%float h) as [g [e1 [Hq1 H1]]].
  destruct (searchStations_run env (mkFilter (Some "Turkey") None None (Some 200%float))
              (h ++ EvFetch (topUrl env 50%float) :: e1)%list) as [t [e2 [Hq2 H2]]].
  change (requestOf env (mkFilter (Some "Turkey") None None (Some 200%float)) ++ e2)%list
    with (EvFetch (searchUrl env (mkFilter (Some "Turkey") None None (Some 200%float)))
          :: e2) in H2.
  destruct (searchStations_run env (mkFilter None (Some "turkish") None (Some 100%float))
              ((h ++ EvFetch (topUrl env 50%float) :: e1)
               ++ EvFetch (searchUrl env (mkFilter (Some "Turkey") None None
                                            (Some 200%float))) :: e2)%list)
    as [tg [e3 [Hq3 H3]]].
  change (requestOf env (mkFilter None (Some "turkish") None (Some 100%float)) ++ e3)%list
    with (EvFetch (searchUrl env (mkFilter None (Some "turkish") None (Some 100%float)))
          :: e3) in H3.
  exists g, e1, t, e2, tg, e3.
  repeat (split; [assumption|]).
  unfold init, try_finally, try_catch, bind, setLoading, setStations, setApp.
  cbn [app log stations currentStation isPlaying volume aiInsight loading].
  rewrite H1, H2, H3. reflexivity.
Qed.

(** X8. After [init] the catalog has no two stations with the same
    identifier, every station has both coordinates and gets a marker, and
    the Turkish stations come before all others; the three requests went
    out in the order top stations, country Turkey, tag turkish; loading
    ends [false]. *)
Theorem init_catalog (env : Env) (w : World) :
  let w' := snd (init env w) in
  NoDup (map stationuuid (stations (app w')))
  /\ (forall s, In s (stations (app w')) ->
                coordsPresent s /\ Globe3D.StationMarker_renders s = true)
  /\ (exists P O, stations (app w') = (P ++ O)%list
                  /\ Forall (fun s => isTurkish s = true) P
                  /\ Forall (fun s => isTurkish s = false) O)
  /\ loading (app w') = false
  /\ queries (log w')
     = (queries (log w)
        ++ [topUrl env 50%float;
            searchUrl env (mkFilter (Some "Turkey") None None (Some 200%float));
            searchUrl env (mkFilter None (Some "turkish") None (Some 100%float))])%list.
Proof.
  cbv zeta. destruct w as [a h].
  destruct (init_run env a h)
    as [g [e1 [t [e2 [tg [e3 [Hq1 [Hq2 [Hq3 [_ [_ [_ Hrun]]]]]]]]]]]].
  rewrite Hrun. cbn [snd app log stations loading]. unfold reconcileInit.
  split; [apply finalStationsOf_NoDup|]. split.
  { intros s Hs. apply finalStationsOf_In, firstGeo_In in Hs.
    destruct Hs as [_ [Hg _]]. split; [now apply hasGeo_coordsPresent|].
    now apply hasGeo_renders. }
  split.
  { rewrite finalStationsOf_partition. eexists _, _. split; [reflexivity|].
    split; [apply filter_priority_all|apply filter_ordinary_all]. }
  split; [reflexivity|].
  unfold quiet in *. rewrite !queries_app. cbn [queries].
  rewrite Hq1, Hq2, Hq3. rewrite ?app_nil_r, <- ?app_assoc. reflexivity.
Qed.

(** X9. When every catalog request fails in transport, [init] completes
    and leaves the empty catalog. *)
Theorem init_all_requests_fail (env : Env) (w : World) :
  (forall h u r, fetch env h u = Normal r -> r_ok r = false) ->
  fst (init env w) = Normal tt
  /\ stations (app (snd (init env w))) = []
  /\ loading (app (snd (init env w))) = false.
Proof.
  intros Hfail. destruct w as [a h].
  destruct (init_run env a h)
    as [g [e1 [t [e2 [tg [e3 [_ [_ [_ [H1 [H2 [H3 Hrun]]]]]]]]]]]].
  pose proof (fetchTopStations_transport_failure env 50%float (mkWorld a h)
                (Hfail _ _)) as G1.
  rewrite H1 in G1. injection G1 as ->.
  assert (G2 : t = []).
  { specialize (H2 a).
    match type of H2 with
    | searchStations env ?f ?w0 = _ =>
        pose proof (searchStations_transport_failure env f w0 (Hfail _ _)) as G
    end.
    rewrite H2 in G. now injection G. }
  assert (G3 : tg = []).
  { specialize (H3 a).
    match type of H3 with
    | searchStations env ?f ?w0 = _ =>
        pose proof (searchStations_transport_failure env f w0 (Hfail _ _)) as G
    end.
    rewrite H3 in G. now injection G. }
  subst t tg. rewrite Hrun. repeat split; reflexivity.
Qed.

Lemma init_all_requests_fail_witness :
  stations (app (snd (init offlineEnv
                        (mkWorld (mkApp [p1] None false 0.5%float "" false) [])))) = [].
Proof.
  apply (init_all_requests_fail offlineEnv).
  intros h u r H. discriminate H.
Defined.

(** X10. Selecting a station other than the current one (or the first
    one) makes it the selection and, before anything else, hands its
    resolved URL to the audio element, starts playback and sends exactly
    one inference request, for the insight of that station; whatever else
    is logged is console output; the insight ends non-empty; the catalog,
    the playing flag, the volume and the loading flag are not written. *)
Theorem select_new_station (env : Env) (station : RadioStation) (w : World) :
  sameStation (currentStation (app w)) station = false ->
  let r := handleStationSelect env station w in
  fst r = Normal tt
  /\ currentStation (app (snd r)) = Some station
  /\ stations (app (snd r)) = stations (app w)
  /\ isPlaying (app (snd r)) = isPlaying (app w)
  /\ volume (app (snd r)) = volume (app w)
  /\ loading (app (snd r)) = loading (app w)
  /\ JS.truthy_string (aiInsight (app (snd r))) = true
  /\ exists rest,
       log (snd r)
       = (log w
          ++ EvAudioSrc (url_resolved station)
          :: EvAudioPlay
          :: EvGenerateContent
               (insightRequest (name station) (country station) (tags station))
          :: rest)%list
       /\ Forall (fun ev => isConsole ev = true) rest.
Proof.
  destruct w as [a h]. cbn [app log]. intros Hsame. cbv zeta.
  unfold handleStationSelect, bind, getApp. cbv beta. cbn [app log].
  rewrite Hsame.
  unfold setCurrentStation, setAiInsight, setApp, audio_play_promise, console_warn,
    bind, history, emit, ret.
  cbn [app log stations currentStation isPlaying volume aiInsight loading].
  unfold getStationInsight, try_catch, do_generateContent, console_error, bind,
    history, emit, await, throw, ret.
  cbn [app log stations currentStation isPlaying volume aiInsight loading].
  set (h1 := ((h ++ [EvAudioSrc (url_resolved station)]) ++ [EvAudioPlay])%list).
  set (req := insightRequest (name station) (country station) (tags station)).
  assert (Hlog : forall rest : list Event,
             ((h1 ++ [EvGenerateContent req]) ++ rest)%list
             = (h ++ EvAudioSrc (url_resolved station) :: EvAudioPlay
                  :: EvGenerateContent req :: rest)%list).
  { intros rest. unfold h1. rewrite <- !app_assoc. reflexivity. }
  destruct (generateContent env h1 req) as [gr|e];
    [destruct (g_text gr) as [t|]; [destruct (JS.truthy_string t) eqn:Ht|]|];
    destruct (play_rejects env (h ++ [EvAudioSrc (url_resolved station)])%list)
      as [pe|];
    cbn [fst snd app log stations currentStation isPlaying volume aiInsight loading];
    repeat (split; [reflexivity || assumption|]).
  - exists [EvConsoleWarn "Playback error" pe].
    split; [rewrite <- Hlog; reflexivity|repeat constructor].
  - exists []. split; [rewrite <- Hlog; now rewrite app_nil_r|constructor].
  - exists [EvConsoleWarn "Playback error" pe].
    split; [rewrite <- Hlog; reflexivity|repeat constructor].
  - exists []. split; [rewrite <- Hlog; now rewrite app_nil_r|constructor].
  - exists [EvConsoleWarn "Playback error" pe].
    split; [rewrite <- Hlog; reflexivity|repeat constructor].
  - exists []. split; [rewrite <- Hlog; now rewrite app_nil_r|constructor].
  - exists [EvConsoleError "Gemini Insight Error:" e;
            EvConsoleWarn "Playback error" pe].
    split; [rewrite <- Hlog; now rewrite <- !app_assoc|repeat constructor].
  - exists [EvConsoleError "Gemini Insight Error:" e].
    split; [rewrite <- Hlog; reflexivity|repeat constructor].
Qed.

Lemma select_new_station_witness :
  currentStation
    (app (snd (handleStationSelect offlineEnv o1
                 (mkWorld (mkApp [p1; o1] (Some p1) true 0.5%float "" false) []))))
  = Some o1.
Proof.
  apply (select_new_station offlineEnv o1
           (mkWorld (mkApp [p1; o1] (Some p1) true 0.5%float "" false) [])).
  reflexivity.
Defined.

(** X11. The selection is never cleared or changed by a catalog
    operation: [init], [handleSearch], [handleAIMood] and
    [handlePlayPause] leave the selected station, the playing flag and
    the volume as they were, also when the selected station is not part
    of the new catalog. *)
Theorem selection_survives_catalog_operations (env : Env) (query : string) (w : World) :
  let kept (r : Completion unit * World) :=
    currentStation (app (snd r)) = currentStation (app w)
    /\ isPlaying (app (snd r)) = isPlaying (app w)
    /\ volume (app (snd r)) = volume (app w) in
  kept (init env w)
  /\ kept (handleSearch env query w)
  /\ kept (handleAIMood env query w)
  /\ kept (handlePlayPause env w)
  /\ app (snd (handlePlayPause env w)) = app w.
Proof.
  cbv zeta. destruct w as [a h]. cbn [app log].
  split.
  { destruct (init_run env a h)
      as [g [e1 [t [e2 [tg [e3 [_ [_ [_ [_ [_ [_ Hrun]]]]]]]]]]]].
    rewrite Hrun. repeat split; reflexivity. }
  split.
  { destruct (handleSearch_run env query a h) as [results [extra [_ [_ Hrun]]]].
    rewrite Hrun. repeat split; reflexivity. }
  split.
  { destruct (handleAIMood_run env query a h) as [parsed [ex1 [_ [_ Hrun]]]].
    destruct parsed as [response|].
    - destruct Hrun as [results [ex2 [loose [ex3 [_ [_ [_ [_ Hrun]]]]]]]].
      rewrite Hrun. destruct (_ && _); repeat split; reflexivity.
    - rewrite Hrun. repeat split; reflexivity. }
  assert (Happ : app (snd (handlePlayPause env (mkWorld a h))) = a).
  { unfold handlePlayPause, bind, getApp. cbv beta. cbn [app log].
    destruct (currentStation a); [|reflexivity].
    destruct (isPlaying a).
    - reflexivity.
    - unfold audio_play, bind, history, emit, ret. cbn.
      destruct (play_rejects env h); reflexivity. }
  rewrite Happ. repeat split; reflexivity.
Qed.

(** X12. Whenever [handleAIMood] completes without throwing, the parsed
    response was not [null], loading is [false], the insight is the
    explanation of the response, and every station installed, by either
    branch, has a latitude. When the parsed response is [null] it throws
    the [TypeError] of the property read, before any catalog request, and
    leaves loading [true] and the catalog as it was. *)
Theorem handleAIMood_end_state (env : Env) (query : string) (w : World) :
  let r := handleAIMood env query w in
  (fst r = Normal tt ->
   exists response,
     fst (getMoodRecommendation env query w) = Normal (Some response)
     /\ aiInsight (app (snd r)) = m_explanation response
     /\ loading (app (snd r)) = false
     /\ forall s, In s (stations (app (snd r))) -> geo_lat s <> None)
  /\ (fst (getMoodRecommendation env query w) = Normal None ->
      fst r = Throw nullPropertyError
      /\ loading (app (snd r)) = true
      /\ stations (app (snd r)) = stations (app w)
      /\ queries (log (snd r)) = queries (log w)).
Proof.
  cbv zeta. destruct w as [a h].
  destruct (handleAIMood_run env query a h) as [parsed [ex1 [Hq1 [Hm Hrun]]]].
  rewrite Hm. cbn [fst].
  destruct parsed as [response|].
  - destruct Hrun as [results [ex2 [loose [ex3 [_ [_ [_ [_ Hrun]]]]]]]].
    split; [|discriminate]. intros _.
    exists response. rewrite Hrun. split; [reflexivity|].
    destruct (_ && _); cbn [snd app stations aiInsight loading];
      (split; [reflexivity|]); (split; [reflexivity|]);
      intros s Hs; apply filter_In in Hs; destruct Hs as [_ Hs].
    + unfold hasLat in Hs. destruct (geo_lat s); [discriminate|discriminate Hs].
    + apply hasGeo_coordsPresent in Hs. apply Hs.
  - rewrite Hrun. cbn [fst snd app log stations loading].
    split; [discriminate|]. intros _.
    repeat (split; [reflexivity|]).
    unfold quiet in Hq1. now rewrite queries_app, Hq1, app_nil_r.
Qed.

Lemma handleAIMood_end_state_witness :
  loading (app (snd (handleAIMood catalogEnv "late jazz" world0))) = false
  /\ loading (app (snd (handleAIMood nullEnv "late jazz" world0))) = true.
Proof.
  split.
  - destruct (proj1 (handleAIMood_end_state catalogEnv "late jazz" world0) eq_refl)
      as [response [_ [_ [H _]]]].
    exact H.
  - apply (proj2 (handleAIMood_end_state nullEnv "late jazz" world0) eq_refl).
Defined.

(** X13. The catalog requests of a run of [handleAIMood] that completes
    are, in order: the request of the primary filter, then, exactly when
    [results.filter(s => s.geo_lat && s.geo_long)] is empty and the tag
    is truthy, the request of the looser filter, and nothing after it; a
    filter whose URL cannot be built sends no request. When the response
    carries no country, the looser filter is the primary filter, so the
    second request repeats the URL of the first. *)
Theorem mood_requests_in_order (env : Env) (query : string) (w : World) :
  let r := handleAIMood env query w in
  let w1 := snd (getMoodRecommendation env query w) in
  fst r = Normal tt ->
  exists response results,
    fst (getMoodRecommendation env query w) = Normal (Some response)
    /\ queries (log w1) = queries (log w)
    /\ fst (searchStations env (primaryFilter response) w1) = Normal results
    /\ queries (log (snd r))
       = (queries (log w)
          ++ queries (requestOf env (primaryFilter response))
          ++ (if (List.length (filter hasGeo results) =? 0)%nat
                 && JS.truthy_opt_string (m_tag response)
              then queries (requestOf env (looseFilter response))
              else []))%list
    /\ (JS.truthy_opt_string (m_country response) = false ->
        JS.truthy_opt_string (m_tag response) = true ->
        looseFilter response = primaryFilter response).
Proof.
  cbv zeta. destruct w as [a h].
  destruct (handleAIMood_run env query a h) as [parsed [ex1 [Hq1 [Hm Hrun]]]].
  rewrite Hm. cbn [fst snd log].
  destruct parsed as [response|]; [|rewrite Hrun; discriminate].
  destruct Hrun as [results [ex2 [loose [ex3 [Hq2 [Hq3 [Hs [_ Hrun]]]]]]]].
  intros _. exists response, results. unfold quiet in *.
  split; [reflexivity|].
  split; [now rewrite queries_app, Hq1, app_nil_r|].
  split; [now rewrite Hs|].
  split.
  - rewrite Hrun.
    destruct ((List.length (filter hasGeo results) =? 0)%nat
              && JS.truthy_opt_string (m_tag response)); cbn [snd log];
      rewrite !queries_app, Hq1, Hq2, ?Hq3; rewrite ?app_nil_r, <- ?app_assoc;
      reflexivity.
  - intros Hc Ht. unfold looseFilter, primaryFilter. rewrite Hc, Ht. reflexivity.
Qed.

Lemma mood_requests_in_order_witness :
  queries (log (snd (handleAIMood offlineEnv "anything" world0)))
  = [searchUrl offlineEnv (primaryFilter fallbackMood);
     searchUrl offlineEnv (primaryFilter fallbackMood)].
Proof.
  destruct (mood_requests_in_order offlineEnv "anything" world0 eq_refl)
    as [response [results [Hm [_ [Hs [Hq _]]]]]].
  assert (Hr : response = fallbackMood).
  { vm_compute in Hm. now injection Hm. }
  subst response.
  assert (Hres : results = []).
  { vm_compute in Hs. now injection Hs. }
  subst results. rewrite Hq. reflexivity.
Defined.

(** X14. With the inference service failing and every catalog request
    failing in transport, [handleAIMood] still completes: the insight is
    the canned apology, the catalog is empty and loading is [false]. *)
Theorem handleAIMood_all_unreachable (env : Env) (query : string) (w : World) :
  (forall r t,
      generateContent env (log w) (moodRequest query) = Normal r ->
      g_text r = Some t -> JS.truthy_string t = true ->
      exists e, JSON_parse env t = Throw e) ->
  (forall h u r, fetch env h u = Normal r -> r_ok r = false) ->
  let r := handleAIMood env query w in
  fst r = Normal tt
  /\ aiInsight (app (snd r)) = "Couldn't quite catch that vibe. Try 'Jazz from France'."
  /\ stations (app (snd r)) = []
  /\ loading (app (snd r)) = false.
Proof.
  destruct w as [a h]. cbn [log]. intros Hinf Hfail. cbv zeta.
  destruct (handleAIMood_run env query a h) as [parsed [ex1 [_ [Hm Hrun]]]].
  assert (Hr : parsed = Some fallbackMood).
  { pose proof (getMoodRecommendation_failure env query (mkWorld a h) Hinf) as G.
    rewrite Hm in G. now injection G. }
  subst parsed.
  destruct Hrun as [results [ex2 [loose [ex3 [_ [_ [Hs [Hl Hrun]]]]]]]].
  assert (Hres : results = []).
  { specialize (Hs a).
    match type of Hs with
    | searchStations env ?f ?w0 = _ =>
        pose proof (searchStations_transport_failure env f w0 (Hfail _ _)) as G
    end.
    rewrite Hs in G. now injection G. }
  assert (Hloose : loose = []).
  { specialize (Hl a).
    match type of Hl with
    | searchStations env ?f ?w0 = _ =>
        pose proof (searchStations_transport_failure env f w0 (Hfail _ _)) as G
    end.
    rewrite Hl in G. now injection G. }
  subst results loose. rewrite Hrun. repeat split; reflexivity.
Qed.

Lemma handleAIMood_all_unreachable_witness :
  stations (app (snd (handleAIMood offlineEnv "Rainy jazz cafe in Tokyo"
                        (mkWorld (mkApp [p1; o1] None false 0.5%float "" false) []))))
  = [].
Proof.
  apply (handleAIMood_all_unreachable offlineEnv "Rainy jazz cafe in Tokyo"
           (mkWorld (mkApp [p1; o1] None false 0.5%float "" false) [])).
  - intros r t H. discriminate H.
  - intros h u r H. discriminate H.
Defined.

(* ================================================================== *)
(** * Further properties of the globe *)
(* ================================================================== *)

Lemma filter_id_none (l : list RadioStation) k :
  ~ In k (map stationuuid l) ->
  filter (fun s => String.eqb k (stationuuid s)) l = [].
Proof.
  induction l as [|x l IH]; simpl; intros H; [reflexivity|].
  destruct (String.eqb_spec k (stationuuid x)) as [Heq|Hne].
  - exfalso. apply H. left. now symmetry.
  - apply IH. intros Hin. apply H. now right.
Qed.

Lemma filter_id_unique (l : list RadioStation) k :
  NoDup (map stationuuid l) ->
  List.length (filter (fun s => String.eqb k (stationuuid s)) l) <= 1.
Proof.
  induction l as [|x l IH]; simpl; intros H; [auto|].
  inversion H as [|? ? Hx Hl]; subst.
  destruct (String.eqb_spec k (stationuuid x)) as [Heq|Hne].
  - subst k. rewrite filter_id_none by assumption. simpl. auto.
  - now apply IH.
Qed.

(** X15. Selection is exclusive on a catalog with unique identifiers:
    [Globe3D] gives the [isSelected] prop to at most one marker, to none
    when nothing is selected, and exactly to the stations carrying the
    identifier of the current station. *)
Theorem selection_exclusive (stations : list RadioStation)
        (currentStation : option RadioStation) :
  NoDup (map stationuuid stations) ->
  List.length (filter snd (Globe3D.stationMarkers stations currentStation)) <= 1
  /\ (currentStation = None ->
      filter snd (Globe3D.stationMarkers stations currentStation) = [])
  /\ (forall c s, currentStation = Some c ->
                  (In (s, true) (Globe3D.stationMarkers stations currentStation)
                   <-> In s stations /\ stationuuid s = stationuuid c)).
Proof.
  intros Hnd. unfold Globe3D.stationMarkers. split; [|split].
  - destruct currentStation as [c|].
    + assert (E : forall l : list RadioStation,
                 List.length (filter snd (map (fun s => (s, sameStation (Some c) s)) l))
                 = List.length (filter (fun s => String.eqb (stationuuid c) (stationuuid s)) l)).
      { induction l as [|x l IH]; [reflexivity|].
        cbn [map filter snd].
        change (sameStation (Some c) x)
          with (String.eqb (stationuuid c) (stationuuid x)).
        destruct (String.eqb (stationuuid c) (stationuuid x));
          cbn [List.length]; now rewrite IH. }
      rewrite E. now apply filter_id_unique.
    + assert (E : forall l : list RadioStation,
                 filter snd (map (fun s => (s, sameStation None s)) l) = []).
      { induction l as [|x l IH]; [reflexivity|]. cbn [map filter snd sameStation].
        exact IH. }
      rewrite E. cbn [List.length]. auto.
  - intros ->. clear Hnd. induction stations as [|x l IH]; [reflexivity|].
    cbn [map filter snd sameStation]. exact IH.
  - intros c s ->. rewrite in_map_iff. cbn [sameStation]. split.
    + intros [x [Hx Hin]]. injection Hx as -> Hid.
      split; [assumption|]. apply String.eqb_eq in Hid. now symmetry.
    + intros [Hin Hid]. exists s. split; [|assumption].
      f_equal. apply String.eqb_eq. now symmetry.
Qed.

Lemma selection_exclusive_witness :
  List.length (filter snd (Globe3D.stationMarkers [p1; o1; p2; o2] (Some p2))) <= 1.
Proof.
  apply (proj1 (selection_exclusive [p1; o1; p2; o2] (Some p2)
                  ltac:(simpl; repeat constructor; simpl; intuition discriminate))).
Defined.

(** X16. From any scene in which the sphere and the container of the
    markers carry the same rotation (or are both unmounted), they carry
    the same rotation after any number of frames. *)
Theorem frames_preserve_sync (n : nat) (sc : Globe3D.Scene) :
  Globe3D.rotationOf (Globe3D.rotatorRef sc) = Globe3D.rotationOf (Globe3D.earthRef sc) ->
  Globe3D.rotationOf (Globe3D.rotatorRef (Globe3D.frames n sc))
  = Globe3D.rotationOf (Globe3D.earthRef (Globe3D.frames n sc)).
Proof.
  revert sc. induction n as [|n IH]; intros sc H; [exact H|].
  cbn [Globe3D.frames]. apply IH. now apply frame_preserves_sync.
Qed.

Lemma frames_preserve_sync_witness :
  Globe3D.rotationOf (Globe3D.rotatorRef (Globe3D.frames 100 Globe3D.mountedScene))
  = Globe3D.rotationOf (Globe3D.earthRef (Globe3D.frames 100 Globe3D.mountedScene)).
Proof.
  apply (frames_preserve_sync 100 Globe3D.mountedScene). reflexivity.
Defined.

(* ================================================================== *)
(** * Properties of the player *)
(* ================================================================== *)

(** The mute button does not remember the volume: pressed twice, it
    leaves 0.5 whenever the volume was not 0 (and 0 when it was). *)
Theorem muteToggle_twice (volume : float) :
  Player.muteToggle (Player.muteToggle volume)
  = if (volume =? 0)%float then 0%float else 0.5%float.
Proof.
  unfold Player.muteToggle. destruct (volume =? 0)%float; reflexivity.
Qed.

Lemma split_head_no_sep sep s : JS.includes (JS.split_head sep s) (String sep "") = false.
Proof.
  induction s as [|c s IH]; [reflexivity|].
  cbn [JS.split_head]. destruct (Ascii.eqb_spec c sep) as [Heq|Hne]; [reflexivity|].
  cbn [JS.includes String.prefix]. rewrite IH.
  destruct (ascii_dec sep c) as [Heq|_]; [now elim Hne|reflexivity].
Qed.

Lemma split_head_prefix sep s : String.prefix (JS.split_head sep s) s = true.
Proof.
  induction s as [|c s IH]; [reflexivity|].
  cbn [JS.split_head]. destruct (Ascii.eqb c sep); [reflexivity|].
  cbn [String.prefix]. destruct (ascii_dec c c) as [_|Hne]; [exact IH|now elim Hne].
Qed.

Lemma split_head_decompose sep s :
  s = JS.split_head sep s
  \/ exists rest, s = JS.split_head sep s ++ String sep rest.
Proof.
  induction s as [|c s IH]; [now left|].
  cbn [JS.split_head]. destruct (Ascii.eqb_spec c sep) as [->|Hne].
  - right. exists s. reflexivity.
  - destruct IH as [IH|[rest IH]].
    + left. cbn. now rewrite <- IH.
    + right. exists rest. cbn. now rewrite <- IH.
Qed.

(** X21. The genre label of the player is the part of the tags before
    the first comma, or [FM] when that part is empty: the tags are that
    part, free of commas, alone or followed by a comma and a rest. So the
    label is never empty and never holds a comma. *)
Theorem genreLabel_shape (station : RadioStation) :
  exists first,
    JS.includes first "," = false
    /\ (tags station = first \/ exists rest, tags station = first ++ "," ++ rest)
    /\ Player.genreLabel station = (if JS.truthy_string first then first else "FM")
    /\ JS.truthy_string (Player.genreLabel station) = true
    /\ JS.includes (Player.genreLabel station) "," = false.
Proof.
  exists (JS.split_head "," (tags station)).
  split; [apply split_head_no_sep|]. split; [apply split_head_decompose|].
  unfold Player.genreLabel. cbv zeta.
  destruct (JS.truthy_string (JS.split_head "," (tags station))) eqn:Ht.
  - split; [reflexivity|]. split; [exact Ht|apply split_head_no_sep].
  - repeat split; reflexivity.
Qed.
